(** * yas web client (www/main.js): transcript assembly and rendering

    A shallow embedding of the chat page script: the renderer
    ([htmlEncode], [getTextFromParts], [renderPart],
    [renderMessageContent]), the two writers of the chat log
    ([appendMessage], [addOrUpdateMessage]), the history fold of
    [loadHistory] and the stream handlers installed by
    [handleFormSubmit].

    Conventions.
    - A JS string is a [string]; [join('')] is [String.concat] with the
      empty separator.
    - A property that may be missing from an object is an [option]
      ([None] is JS [undefined]).
    - A call that may raise returns a [completion]: the state it left
      behind, tagged [Normal] or [Throw].
    - [marked.parse], [JSON.stringify] and [JSON.parse] belong to the
      browser and to the marked library; they are section variables. *)

From Stdlib Require Import String Ascii List Bool DecimalString.
From stdpp Require Import base option list gmap.
Import ListNotations.

Set Warnings "-register-all,-automation".

Local Open Scope string_scope.
Local Open Scope list_scope.

(** ** Strings *)

(** The double quote and the line feed, as characters of a template. *)
Definition dquote : string := String (ascii_of_nat 34) EmptyString.
Definition newline : string := String (ascii_of_nat 10) EmptyString.

(** [n] spaces of indentation. *)
Fixpoint spaces (n : nat) : string :=
  match n with
  | 0 => EmptyString
  | S k => String " " (spaces k)
  end.

(** [input.replace(/c/g, by)] for a one-character pattern [c]. *)
Fixpoint replaceAll (c : ascii) (by_ : string) (input : string) : string :=
  match input with
  | EmptyString => EmptyString
  | String a rest =>
      if Ascii.eqb a c then by_ ++ replaceAll c by_ rest
      else String a (replaceAll c by_ rest)
  end.

(** part_000, lines 9-14. *)
Definition htmlEncode (input : string) : string :=
  replaceAll ">" "&gt;" (replaceAll "<" "&lt;" (replaceAll "&" "&amp;" input)).

(** JS truthiness of a string. *)
Definition truthy (s : string) : bool := negb (String.eqb s "").

(** [array.join('')]. *)
Definition join (l : list string) : string := String.concat "" l.

(** ** Data model *)

(** A JSON value, as [JSON.parse] yields it.  A number is kept as the
    text [JSON.stringify] prints for it; the script never computes with
    one. *)
Inductive json : Type :=
| JNull
| JBool (b : bool)
| JNumber (literal : string)
| JString (s : string)
| JArray (items : list json)
| JObject (members : list (string * json)).

(** A part object.  The fields are the properties the script reads;
    [extra] holds any further members of the object. *)
Record Part : Type := mkPart {
  type : string;
  text : option string;
  name : option string;
  args : option json;
  response : option json;
  extra : list (string * json)
}.

Record Message : Type := mkMessage {
  role : string;
  parts : list Part
}.

(** The part object itself as a JSON value, for [JSON.stringify(part)]. *)
Definition member {A} (key : string) (f : A -> json) (o : option A)
  : list (string * json) :=
  match o with
  | Some v => [(key, f v)]
  | None => []
  end.

Definition part_object (p : Part) : json :=
  JObject ([("type", JString (type p))]
           ++ member "text" JString (text p)
           ++ member "name" JString (name p)
           ++ member "args" (fun v => v) (args p)
           ++ member "response" (fun v => v) (response p)
           ++ extra p).

(** Object literals of the script. *)
Definition text_part (s : string) : Part :=
  mkPart "text" (Some s) None None None [].

(** [{type: 'non-text-placeholder'}], part_000 line 88. *)
Definition placeholder : Part :=
  mkPart "non-text-placeholder" None None None None [].

Definition is_text (p : Part) : bool := String.eqb (type p) "text".

(** [p.text], read where it is known to be present. *)
Definition text_or_empty (p : Part) : string :=
  match text p with
  | Some s => s
  | None => ""
  end.

(** part_000, lines 20-25. *)
Definition getTextFromParts (parts : list Part) : string :=
  join (map text_or_empty
          (List.filter (fun p => is_text p && truthy (text_or_empty p)) parts)).

(** ** The page

    The content element keeps its markup as a tree, the way the browser
    does after [innerHTML] is assigned.  Markup that comes out of
    [marked.parse], and a name written into a summary, is a leaf: the
    model looks for [.accordion] elements among the blocks the script
    itself writes.  The count of those elements decides how many
    placeholders the extend branch renders; the raw text of an entry
    does not depend on it. *)

Inductive Node : Type :=
| MarkdownHtml (html : string)
| DetailsAccordion (summary : string) (code : string)
| PreCode (code : string).

(** The text of the template literals of [renderPart]. *)
Definition outerHTML (n : Node) : string :=
  match n with
  | MarkdownHtml html => html
  | DetailsAccordion summary code =>
      newline ++ spaces 20 ++ "<details class=" ++ dquote ++ "accordion" ++ dquote ++ ">"
      ++ newline ++ spaces 24 ++ "<summary>" ++ summary ++ "</summary>"
      ++ newline ++ spaces 24 ++ "<pre><code>" ++ code ++ "</code></pre>"
      ++ newline ++ spaces 20 ++ "</details>"
      ++ newline ++ spaces 16
  | PreCode code => "<pre><code>" ++ code ++ "</code></pre>"
  end.

Definition markup (nodes : list Node) : string := join (map outerHTML nodes).

(** [el.matches('.accordion')]. *)
Definition is_accordion (n : Node) : bool :=
  match n with
  | DetailsAccordion _ _ => true
  | _ => false
  end.

Record ContentDiv : Type := mkContentDiv {
  dataset_rawText : option string;
  innerHTML : list Node
}.

Record MessageDiv : Type := mkMessageDiv {
  classList : list string;
  dataset_role : string;
  roleDiv_textContent : string;
  contentDiv : ContentDiv
}.

(** [document.createElement('div')] with the class [content]. *)
Definition new_contentDiv : ContentDiv := mkContentDiv None [].

(** What a call leaves behind: the state, and whether it raised. *)
Inductive completion (S : Type) : Type :=
| Normal (s : S)
| Throw (s : S).
Arguments Normal {S} s.
Arguments Throw {S} s.

Definition state_of {S} (c : completion S) : S :=
  match c with
  | Normal s => s
  | Throw s => s
  end.

(** [DOMTokenList.add] raises on the empty token and on a token with
    ASCII whitespace in it. *)
Definition ascii_whitespace (c : ascii) : bool :=
  let n := nat_of_ascii c in
  Nat.eqb n 9 || Nat.eqb n 10 || Nat.eqb n 12 || Nat.eqb n 13 || Nat.eqb n 32.

Definition valid_token (s : string) : bool :=
  truthy s && negb (existsb ascii_whitespace (list_ascii_of_string s)).

(** The last child mutated in place. *)
Fixpoint update_last {A} (f : A -> A) (l : list A) : list A :=
  match l with
  | [] => []
  | [x] => [f x]
  | x :: rest => x :: update_last f rest
  end.

(** A template substitution [${v}]. *)
Definition interpolate (v : option string) : string :=
  match v with
  | Some s => s
  | None => "undefined"
  end.

(** [v || ''] *)
Definition or_empty (v : option string) : string :=
  match v with
  | Some s => s
  | None => ""
  end.

Section Renderer.

Variable marked_parse : string -> string.
Variable JSON_stringify : json -> string.

(** [htmlEncode(JSON.stringify(v, null, 2))]: [JSON.stringify] of a
    missing property is [undefined], and [undefined.replace] raises. *)
Definition encoded_json (v : option json) : option string :=
  match v with
  | Some j => Some (htmlEncode (JSON_stringify j))
  | None => None
  end.

(** part_000, lines 27-49.  [None] as argument is a null part; [None]
    as result is a TypeError. *)
Definition renderPart (part : option Part) : option (list Node) :=
  match part with
  | None => Some []
  | Some p =>
      if String.eqb (type p) "text" then
        Some [MarkdownHtml (marked_parse (or_empty (text p)))]
      else if String.eqb (type p) "function_call" then
        match encoded_json (args p) with
        | Some code =>
            Some [DetailsAccordion ("Function Call: " ++ interpolate (name p))%string code]
        | None => None
        end
      else if String.eqb (type p) "function_response" then
        match encoded_json (response p) with
        | Some code =>
            Some [DetailsAccordion
                    ("Function Response: " ++ interpolate (name p))%string code]
        | None => None
        end
      else
        Some [PreCode (htmlEncode (JSON_stringify (part_object p)))]
  end.

(** [otherParts.map(renderPart)], stopping at the first exception. *)
Fixpoint render_all (ps : list Part) : option (list Node) :=
  match ps with
  | [] => Some []
  | p :: rest =>
      match renderPart (Some p) with
      | Some html =>
          match render_all rest with
          | Some more => Some (html ++ more)
          | None => None
          end
      | None => None
      end
  end.

(** part_000, lines 51-62.  Only [message.parts] is read. *)
Definition renderMessageContent (contentDiv : ContentDiv) (message_parts : list Part)
  : completion ContentDiv :=
  let textParts := List.filter is_text message_parts in
  let otherParts := List.filter (fun p => negb (is_text p)) message_parts in
  let rawText := getTextFromParts textParts in
  let contentDiv := mkContentDiv (Some rawText) (innerHTML contentDiv) in
  let html := if truthy rawText then [MarkdownHtml (marked_parse rawText)] else [] in
  match render_all otherParts with
  | Some blocks => Normal (mkContentDiv (dataset_rawText contentDiv) (html ++ blocks))
  | None => Throw contentDiv
  end.

(** part_000, lines 64-77.  The new element joins the log in the last
    statement; an exception before it leaves the log as it was. *)
Definition appendMessage (message : Message) (chatLog : list MessageDiv)
  : completion (list MessageDiv) :=
  if valid_token (role message) then
    match renderMessageContent new_contentDiv (parts message) with
    | Normal contentDiv =>
        Normal (chatLog ++ [mkMessageDiv ["message"; role message] (role message)
                                         (role message) contentDiv])
    | Throw _ => Throw chatLog
    end
  else Throw chatLog.

(** The extend branch of [addOrUpdateMessage] on the content element,
    part_000 lines 82-96. *)
Definition extend_content (message : Message) (contentDiv : ContentDiv)
  : completion ContentDiv :=
  let oldRawText := or_empty (dataset_rawText contentDiv) in
  let newTextChunk := getTextFromParts (parts message) in
  let fullRawText := (oldRawText ++ newTextChunk)%string in
  let contentDiv := mkContentDiv (Some fullRawText) (innerHTML contentDiv) in
  let existingNonTextParts :=
    map (fun _ => placeholder) (List.filter is_accordion (innerHTML contentDiv)) in
  let updatedMessage_parts :=
    existingNonTextParts
    ++ List.filter (fun p => negb (is_text p)) (parts message)
    ++ [text_part fullRawText] in
  renderMessageContent contentDiv updatedMessage_parts.

Definition with_content (c : ContentDiv) (e : MessageDiv) : MessageDiv :=
  mkMessageDiv (classList e) (dataset_role e) (roleDiv_textContent e) c.

(** part_000, lines 79-101.  [scrollToBottom] moves the viewport only. *)
Definition addOrUpdateMessage (message : Message) (chatLog : list MessageDiv)
  : completion (list MessageDiv) :=
  match last chatLog with
  | Some lastMessageElement =>
      if String.eqb (dataset_role lastMessageElement) (role message)
         && negb (String.eqb (role message) "user")
      then
        match extend_content message (contentDiv lastMessageElement) with
        | Normal c => Normal (update_last (with_content c) chatLog)
        | Throw c => Throw (update_last (with_content c) chatLog)
        end
      else appendMessage message chatLog
  | None => appendMessage message chatLog
  end.

End Renderer.

(** ** History merge

    The callback of [history.reduce] in [loadHistory], part_000 lines
    109-117, on message values.  [Heap.reducer] below is the same
    callback on objects and references. *)

(** [lastMessage.parts.push(...more)]. *)
Definition push_parts (more : list Part) (lastMessage : Message) : Message :=
  mkMessage (role lastMessage) (parts lastMessage ++ more).

(** [JSON.parse(JSON.stringify(currentMessage))]: a new object with the
    same contents. *)
Definition JSON_clone (currentMessage : Message) : Message :=
  mkMessage (role currentMessage) (parts currentMessage).

Definition reducer (accumulator : list Message) (currentMessage : Message)
  : list Message :=
  match last accumulator with
  | Some lastMessage =>
      if String.eqb (role lastMessage) (role currentMessage)
         && negb (String.eqb (role currentMessage) "user")
      then update_last (push_parts (parts currentMessage)) accumulator
      else accumulator ++ [JSON_clone currentMessage]
  | None => accumulator ++ [JSON_clone currentMessage]
  end.

Definition mergedHistory (history : list Message) : list Message :=
  fold_left reducer history [].

(** ** History merge on the heap

    Message objects and parts arrays live in a store and are reached
    through references, so that a [push] into an array is seen by every
    holder of that array.  Part objects are never written to by the
    script and stay values. *)
Module Heap.

Definition loc := positive.

Inductive object : Type :=
| MessageObject (role : string) (parts : loc)
| ArrayObject (items : list Part).

Abbreviation heap := (gmap loc object).

Definition alloc (o : object) (h : heap) : heap * loc :=
  let l := fresh (dom h) in (<[l := o]> h, l).

(** The message value behind a reference. *)
Definition read_message (h : heap) (l : loc) : option Message :=
  match h !! l with
  | Some (MessageObject r pl) =>
      match h !! pl with
      | Some (ArrayObject items) => Some (mkMessage r items)
      | _ => None
      end
  | _ => None
  end.

(** [JSON.parse(JSON.stringify(currentMessage))]: a new parts array and
    a new message object. *)
Definition JSON_clone (h : heap) (currentMessage : loc) : option (heap * loc) :=
  match read_message h currentMessage with
  | Some m =>
      let '(h1, pl) := alloc (ArrayObject (parts m)) h in
      Some (alloc (MessageObject (role m) pl) h1)
  | None => None
  end.

Definition clone_and_push (h : heap) (accumulator : list loc) (currentMessage : loc)
  : option (heap * list loc) :=
  match JSON_clone h currentMessage with
  | Some (h', copy) => Some (h', accumulator ++ [copy])
  | None => None
  end.

(** The callback of [history.reduce]; [None] on a dangling reference. *)
Definition reducer (st : heap * list loc) (currentMessage : loc)
  : option (heap * list loc) :=
  let '(h, accumulator) := st in
  match h !! currentMessage with
  | Some (MessageObject current_role current_parts) =>
      match last accumulator with
      | Some lastMessage =>
          match h !! lastMessage with
          | Some (MessageObject last_role last_parts) =>
              if String.eqb last_role current_role
                 && negb (String.eqb current_role "user")
              then
                match h !! current_parts, h !! last_parts with
                | Some (ArrayObject items), Some (ArrayObject old) =>
                    Some (<[last_parts := ArrayObject (old ++ items)]> h, accumulator)
                | _, _ => None
                end
              else clone_and_push h accumulator currentMessage
          | _ => None
          end
      | None => clone_and_push h accumulator currentMessage
      end
  | _ => None
  end.

Fixpoint reduce (history : list loc) (st : heap * list loc)
  : option (heap * list loc) :=
  match history with
  | [] => Some st
  | currentMessage :: rest =>
      match reducer st currentMessage with
      | Some st' => reduce rest st'
      | None => None
      end
  end.

End Heap.

(** ** The stream listeners of [handleFormSubmit] *)

Inductive LogLine : Type :=
| Failed_to_parse (data : string)
| SSE_Error
| Stream_closed.

Record Page : Type := mkPage {
  chatLog : list MessageDiv;
  chatInput_disabled : bool;
  sendButton_disabled : bool;
  sse_closed : bool;
  console : list LogLine
}.

Definition set_chatLog (log : list MessageDiv) (pg : Page) : Page :=
  mkPage log (chatInput_disabled pg) (sendButton_disabled pg) (sse_closed pg)
         (console pg).

Definition console_log (line : LogLine) (pg : Page) : Page :=
  mkPage (chatLog pg) (chatInput_disabled pg) (sendButton_disabled pg)
         (sse_closed pg) (console pg ++ [line]).

(** [sse.close()]: the stream is closed.  What the SSE object does
    besides (it may announce the new ready state to its listeners) is
    its own. *)
Definition close_stream (pg : Page) : Page :=
  mkPage (chatLog pg) (chatInput_disabled pg) (sendButton_disabled pg) true
         (console pg).

(** [chatInput.disabled = false; sendButton.disabled = false]. *)
Definition enable_input (pg : Page) : Page :=
  mkPage (chatLog pg) false false (sse_closed pg) (console pg).

(** part_000, lines 163-166. *)
Definition errorMessage : Message :=
  mkMessage "system" [text_part "Connection error. Please try again."].

Section Listeners.

Variable marked_parse : string -> string.
Variable JSON_stringify : json -> string.

(** [JSON.parse] read at the type of a message: [None] when it raises
    a SyntaxError.  Data that is JSON for something else than a message
    is outside the types of this model. *)
Variable JSON_parse : string -> option Message.

(** The [message] listener, part_000 lines 150-159.  [e.data] is a
    string or missing. *)
Definition on_message (e_data : option string) (pg : Page) : Page :=
  match e_data with
  | Some data =>
      if truthy data then
        match JSON_parse data with
        | Some message =>
            match addOrUpdateMessage marked_parse JSON_stringify message (chatLog pg) with
            | Normal log => set_chatLog log pg
            | Throw log => console_log (Failed_to_parse data) (set_chatLog log pg)
            end
        | None => console_log (Failed_to_parse data) pg
        end
      else pg
  | None => pg
  end.

(** The [error] listener, part_000 lines 161-171.  An exception out of
    [appendMessage] would end the listener there. *)
Definition on_error (pg : Page) : Page :=
  let pg := console_log SSE_Error pg in
  match appendMessage marked_parse JSON_stringify errorMessage (chatLog pg) with
  | Normal log => enable_input (close_stream (set_chatLog log pg))
  | Throw log => set_chatLog log pg
  end.

(** The [readystatechange] listener, part_000 lines 173-180. *)
Definition on_readystatechange (closed : bool) (pg : Page) : Page :=
  if closed then enable_input (console_log Stream_closed pg) else pg.

Inductive Event : Type :=
| MessageEvent (data : option string)
| ErrorEvent
| ReadyStateChange (closed : bool).

Definition dispatch (pg : Page) (ev : Event) : Page :=
  match ev with
  | MessageEvent data => on_message data pg
  | ErrorEvent => on_error pg
  | ReadyStateChange closed => on_readystatechange closed pg
  end.

End Listeners.

(** ** Vocabulary of the properties *)

(** The text a part contributes to an entry: its [text] when it is a
    text part (nothing when the field is missing), nothing otherwise. *)
Definition text_of_parts (ps : list Part) : string :=
  join (map text_or_empty (List.filter is_text ps)).

(** A part that [renderPart] renders without raising. *)
Definition renderable (p : Part) : bool :=
  if String.eqb (type p) "function_call" then
    match args p with Some _ => true | None => false end
  else if String.eqb (type p) "function_response" then
    match response p with Some _ => true | None => false end
  else true.

(** A message the page shows without raising. *)
Definition showable (m : Message) : bool :=
  valid_token (role m) && forallb renderable (parts m).

(** The two ways the script writes to the chat log. *)
Inductive Write : Type :=
| Live (m : Message)
| Direct (m : Message).

Definition written (w : Write) : Message :=
  match w with
  | Live m => m
  | Direct m => m
  end.

(** The messages folded into each entry: a live message goes where the
    history fold would put it, a direct one starts an entry. *)
Definition folded_step (entries : list Message) (w : Write) : list Message :=
  match w with
  | Live m => reducer entries m
  | Direct m => entries ++ [JSON_clone m]
  end.

Definition folded (ws : list Write) : list Message := fold_left folded_step ws [].

(** Two neighbours that the history fold joins. *)
Definition mergeable (a b : Message) : Prop :=
  role a = role b /\ role b <> "user".

(** Every two neighbours of [l] are related. *)
Inductive chain {A} (R : A -> A -> Prop) : list A -> Prop :=
| chain_nil : chain R []
| chain_one x : chain R [x]
| chain_cons x y l : R x y -> chain R (y :: l) -> chain R (x :: y :: l).

(** The last message of a run and the first of the next are not joined. *)
Definition separate (g g' : list Message) : Prop :=
  forall a b, last g = Some a -> head g' = Some b -> ~ mergeable a b.

(** The cell [(l, pl)] holds a copy of [m] made after [h0]: a message
    object at [l] and its parts array at [pl], both new since [h0]. *)
Definition is_copy (h0 h : Heap.heap) (cell : Heap.loc * Heap.loc) (m : Message)
  : Prop :=
  h !! cell.1 = Some (Heap.MessageObject (role m) cell.2)
  /\ h !! cell.2 = Some (Heap.ArrayObject (parts m))
  /\ h0 !! cell.1 = None
  /\ h0 !! cell.2 = None.

(** A run of messages joined into one. *)
Definition fuse (g : list Message) : Message :=
  mkMessage (match g with m :: _ => role m | [] => "" end) (concat (map parts g)).

(** The raw text an entry carries. *)
Definition rawText_of (e : MessageDiv) : option string :=
  dataset_rawText (contentDiv e).

(** The blocks after the markdown text of an entry. *)
Definition nonText_blocks (e : MessageDiv) : list Node :=
  List.filter (fun n => match n with MarkdownHtml _ => false | _ => true end)
              (innerHTML (contentDiv e)).

(** The entry [e] shows the messages folded into [g]: it carries their
    role, and its raw text is the text of their parts. *)
Definition shows (e : MessageDiv) (g : Message) : Prop :=
  dataset_role e = role g /\ rawText_of e = Some (text_of_parts (parts g)).

Section Runs.

Variable marked_parse : string -> string.
Variable JSON_stringify : json -> string.

Definition write (w : Write) (log : list MessageDiv) : completion (list MessageDiv) :=
  match w with
  | Live m => addOrUpdateMessage marked_parse JSON_stringify m log
  | Direct m => appendMessage marked_parse JSON_stringify m log
  end.

(** Writes one after the other, up to the first exception. *)
Fixpoint run (ws : list Write) (log : list MessageDiv) : completion (list MessageDiv) :=
  match ws with
  | [] => Normal log
  | w :: rest =>
      match write w log with
      | Normal log' => run rest log'
      | Throw log' => Throw log'
      end
  end.

(** The try block of [loadHistory] once the history is fetched: the
    log is emptied, the merged history is appended message by message.
    An exception goes to the catch clause of [loadHistory]. *)
Definition show_history (history : list Message) : completion (list MessageDiv) :=
  run (map Direct (mergedHistory history)) [].

End Runs.

(** Two pages that differ at most in what the console shows. *)
Definition same_display (pg1 pg2 : Page) : Prop :=
  chatLog pg1 = chatLog pg2
  /\ chatInput_disabled pg1 = chatInput_disabled pg2
  /\ sendButton_disabled pg1 = sendButton_disabled pg2
  /\ sse_closed pg1 = sse_closed pg2.

(** The entry that [appendMessage(errorMessage)] creates. *)
Definition error_entry (marked_parse : string -> string) : MessageDiv :=
  mkMessageDiv ["message"; "system"] "system" "system"
    (mkContentDiv (Some "Connection error. Please try again.")
       [MarkdownHtml (marked_parse "Connection error. Please try again.")]).

(** ** Stand-ins for the browser, to run the model on examples *)

(** A markdown renderer that wraps its input in a paragraph. *)
Definition paragraph (s : string) : string := "<p>" ++ s ++ "</p>".

(** A serializer that prints only the kind of the value. *)
Definition kind_of (j : json) : string :=
  match j with
  | JNull => "null"
  | JBool true => "true"
  | JBool false => "false"
  | JNumber literal => literal
  | JString s => dquote ++ s ++ dquote
  | JArray _ => "[...]"
  | JObject _ => "{...}"
  end.

(** The chunks of the scenario of section 8, item 7 of the spec. *)
Definition calc_call : Part :=
  mkPart "function_call" None (Some "calc")
         (Some (JObject [("x", JNumber "1")])) None [].

Definition chunk1 : Message := mkMessage "model" [text_part "The answer is "].
Definition chunk2 : Message := mkMessage "model" [calc_call].
Definition chunk3 : Message := mkMessage "model" [text_part "42"].

(** A message with a call and a part of a type the script does not
    know, and a later chunk of the same turn. *)
Definition image_part : Part :=
  mkPart "image" None None None None [("url", JString "cat.png")].

Definition call_and_image : Message := mkMessage "model" [calc_call; image_part].
Definition more_text : Message := mkMessage "model" [text_part "Done."].

(** The turn of [chunk2] and [chunk3] as one message. *)
Definition call_then_text : Message := mkMessage "model" [calc_call; text_part "42"].

(** A call whose name is markup. *)
Definition markup_name : string := "<img src=x onerror=alert(1)>".

Definition injected_call : Part :=
  mkPart "function_call" None (Some markup_name) (Some (JObject [])) None [].

(** An entry, by role, raw text and markup. *)
Definition entry (role raw : string) (nodes : list Node) : MessageDiv :=
  mkMessageDiv ["message"; role] role role (mkContentDiv (Some raw) nodes).

(** The block [calc_call] is shown as, and the block a placeholder is
    shown as. *)
Definition calc_block (JSON_stringify : json -> string) : Node :=
  DetailsAccordion "Function Call: calc"
    (htmlEncode (JSON_stringify (JObject [("x", JNumber "1")]))).

Definition placeholder_block (JSON_stringify : json -> string) : Node :=
  PreCode (htmlEncode (JSON_stringify (part_object placeholder))).

(** The user's bubble. *)
Definition user_entry (marked_parse : string -> string) (input : string) : MessageDiv :=
  mkMessageDiv ["message"; "user"] "user" "user"
    (mkContentDiv (Some input)
       (if truthy input then [MarkdownHtml (marked_parse input)] else [])).

(** [c] occurs in [s]. *)
Definition occurs (c : ascii) (s : string) : bool :=
  existsb (Ascii.eqb c) (list_ascii_of_string s).

(** The history of section 8, item 6 of the spec, in a store: three
    message objects, each with its parts array. *)
Definition spec_history_heap : Heap.heap :=
  <[1%positive := Heap.MessageObject "user" 2%positive]>
  (<[2%positive := Heap.ArrayObject [text_part "hi"]]>
  (<[3%positive := Heap.MessageObject "model" 4%positive]>
  (<[4%positive := Heap.ArrayObject [text_part "Hel"]]>
  (<[5%positive := Heap.MessageObject "model" 6%positive]>
  (<[6%positive := Heap.ArrayObject [text_part "lo!"]]> ∅))))).

Definition spec_history : list Message :=
  [mkMessage "user" [text_part "hi"];
   mkMessage "model" [text_part "Hel"];
   mkMessage "model" [text_part "lo!"]].

(** The page while a turn is streaming. *)
Definition streaming_page : Page :=
  mkPage [user_entry paragraph "hi"] true true false [].

(** A chunk with text and a call that has no [args], and a parser that
    knows it. *)
Definition call_without_args : Message :=
  mkMessage "model"
    [text_part "abc"; mkPart "function_call" None (Some "calc") None None []].

Definition parse_call (data : string) : option Message :=
  if String.eqb data "{call}" then Some call_without_args else None.

(** A parser that knows one chunk. *)
Definition parse_42 (data : string) : option Message :=
  if String.eqb data "{42}" then Some chunk3 else None.

(** ** The earliest script of main.js

    The third script of main.js (lines 255-456) keeps no raw text: it
    renders every part by itself and, to extend an entry, appends the
    new markup to the old.  Its [renderPart] (the one of the first
    script too, lines 30-58) writes the JSON as it is; a missing
    property prints as [undefined] and nothing raises.  On the tree of
    blocks, [innerHTML += markup] puts the new blocks after the old
    ones. *)
Module Earlier.

Section Script.

Variable marked_parse : string -> string.
Variable JSON_stringify : json -> string.

(** [${JSON.stringify(v, null, 2)}]. *)
Definition stringified (v : option json) : string :=
  match v with
  | Some j => JSON_stringify j
  | None => "undefined"
  end.

(** main.js, lines 271-297. *)
Definition renderPart (part : option Part) : list Node :=
  match part with
  | None => []
  | Some p =>
      if String.eqb (type p) "text" then
        [MarkdownHtml (marked_parse (or_empty (text p)))]
      else if String.eqb (type p) "function_call" then
        [DetailsAccordion ("Function Call: " ++ interpolate (name p))%string
                          (stringified (args p))]
      else if String.eqb (type p) "function_response" then
        [DetailsAccordion ("Function Response: " ++ interpolate (name p))%string
                          (stringified (response p))]
      else
        [PreCode (JSON_stringify (part_object p))]
  end.

(** [message.parts.map(renderPart).join('')]. *)
Definition render_parts (ps : list Part) : list Node :=
  concat (map (fun p => renderPart (Some p)) ps).

(** main.js, lines 303-320. *)
Definition appendMessage (message : Message) (chatLog : list MessageDiv)
  : completion (list MessageDiv) :=
  if valid_token (role message) then
    Normal (chatLog ++ [mkMessageDiv ["message"; role message] (role message)
                                     (role message)
                                     (mkContentDiv None (render_parts (parts message)))])
  else Throw chatLog.

(** [contentDiv.innerHTML += newContentHtml]. *)
Definition append_markup (newContentHtml : list Node) (e : MessageDiv) : MessageDiv :=
  with_content (mkContentDiv (dataset_rawText (contentDiv e))
                             (innerHTML (contentDiv e) ++ newContentHtml)) e.

(** main.js, lines 326-340. *)
Definition addOrUpdateMessage (message : Message) (chatLog : list MessageDiv)
  : completion (list MessageDiv) :=
  match last chatLog with
  | Some lastMessageElement =>
      if String.eqb (dataset_role lastMessageElement) (role message)
         && negb (String.eqb (role message) "user")
      then Normal (update_last (append_markup (render_parts (parts message))) chatLog)
      else appendMessage message chatLog
  | None => appendMessage message chatLog
  end.


End Script.

End Earlier.

(** ** Loading the history

    [loadHistory], part_000 lines 103-127, given what the fetch came
    to. *)

Inductive Fetched : Type :=
| Rejected (error_message : string)
| Not_ok (status : nat)
| Answered (history : list Message).

(** [`${response.status}`]. *)
Definition decimal (n : nat) : string := NilZero.string_of_uint (Nat.to_uint n).

(** part_000, lines 121-124. *)
Definition systemMessage (error_message : string) : Message :=
  mkMessage "system" [text_part ("Error loading history: " ++ error_message)].

Section History.

Variable marked_parse : string -> string.
Variable JSON_stringify : json -> string.

(** The text of the exception that [appendMessage] raises on a message;
    the browser words it. *)
Variable exception_message : Message -> string.

(** [mergedHistory.forEach(appendMessage)]: the log it reached, and the
    message it raised on, if any. *)
Fixpoint forEach_appendMessage (ms : list Message) (chatLog : list MessageDiv)
  : list MessageDiv * option Message :=
  match ms with
  | [] => (chatLog, None)
  | m :: rest =>
      match appendMessage marked_parse JSON_stringify m chatLog with
      | Normal log => forEach_appendMessage rest log
      | Throw log => (log, Some m)
      end
  end.

(** The catch clause: the error goes to the console and into a system
    message. *)
Definition catch_load (error_message : string) (chatLog : list MessageDiv)
  : completion (list MessageDiv * list string) :=
  match appendMessage marked_parse JSON_stringify (systemMessage error_message) chatLog with
  | Normal log => Normal (log, [error_message])
  | Throw log => Throw (log, [error_message])
  end.

(** The chat log and the console errors that [loadHistory] leaves. *)
Definition loadHistory (fetched : Fetched) (chatLog : list MessageDiv)
  : completion (list MessageDiv * list string) :=
  match fetched with
  | Rejected error_message => catch_load error_message chatLog
  | Not_ok status => catch_load ("HTTP error! Status: " ++ decimal status) chatLog
  | Answered history =>
      match forEach_appendMessage (mergedHistory history) [] with
      | (log, None) => Normal (log, [])
      | (log, Some m) => catch_load (exception_message m) log
      end
  end.

End History.

(** ** Submitting the form

    [handleFormSubmit], part_000 lines 129-183, on the page, the text
    in the input and the requests sent so far. *)

Record Form : Type := mkForm {
  form_page : Page;
  chatInput_value : string;
  requests : list string
}.

(** The message object as a JSON value, for the request payload. *)
Definition message_object (m : Message) : json :=
  JObject [("role", JString (role m)); ("parts", JArray (map part_object (parts m)))].

Section Submit.

Variable marked_parse : string -> string.
Variable JSON_stringify : json -> string.

(** [JSON.stringify] with one argument, and [String.prototype.trim]. *)
Variable JSON_stringify_compact : json -> string.
Variable trim : string -> string.

Definition handleFormSubmit (f : Form) : completion Form :=
  let inputText := trim (chatInput_value f) in
  if truthy inputText then
    let userMessage := mkMessage "user" [text_part inputText] in
    match addOrUpdateMessage marked_parse JSON_stringify userMessage
            (chatLog (form_page f)) with
    | Normal log =>
        Normal (mkForm (mkPage log true true false (console (form_page f))) ""
                       (requests f
                        ++ [JSON_stringify_compact (message_object userMessage)]))
    | Throw log =>
        Throw (mkForm (set_chatLog log (form_page f)) (chatInput_value f) (requests f))
    end
  else Normal f.

(** The [keydown] listener of the input, part_000 lines 187-192.  It
    dispatches a submit event; an exception in the submit listener does
    not come back through [dispatchEvent]. *)
Definition on_keydown (key : string) (altKey : bool) (f : Form) : Form :=
  if String.eqb key "Enter" && altKey then state_of (handleFormSubmit f) else f.

End Submit.

(** ** Further vocabulary *)

(** What [htmlEncode] writes for one character. *)
Definition escape (c : ascii) : string :=
  if Ascii.eqb c "&" then "&amp;"
  else if Ascii.eqb c "<" then "&lt;"
  else if Ascii.eqb c ">" then "&gt;"
  else String c "".

Fixpoint escape_all (s : string) : string :=
  match s with
  | EmptyString => EmptyString
  | String c rest => (escape c ++ escape_all rest)%string
  end.

(** A part shown as an accordion. *)
Definition is_call (p : Part) : bool :=
  String.eqb (type p) "function_call" || String.eqb (type p) "function_response".

(** The block for the text of an entry. *)
Definition markdown_block (marked_parse : string -> string) (rawText : string)
  : list Node :=
  if truthy rawText then [MarkdownHtml (marked_parse rawText)] else [].

(** Neighbours of the same role only when the second is a user entry. *)
Definition alternating (log : list MessageDiv) : Prop :=
  chain (fun a b => dataset_role a = dataset_role b -> dataset_role b = "user") log.

(** A trim for examples: it strips leading spaces. *)
Fixpoint strip_spaces (s : string) : string :=
  match s with
  | String " " rest => strip_spaces rest
  | _ => s
  end.

(** A text with no ampersand and no angle bracket in it. *)
Definition plain (s : string) : bool :=
  negb (occurs "&" s || occurs "<" s || occurs ">" s).

(** The entry for a failed load. *)
Definition load_error_entry (marked_parse : string -> string) (error_message : string)
  : MessageDiv :=
  entry "system" ("Error loading history: " ++ error_message)%string
    [MarkdownHtml (marked_parse ("Error loading history: " ++ error_message)%string)].

(** A block with its code passed through [htmlEncode]. *)
Definition encode_code (n : Node) : Node :=
  match n with
  | MarkdownHtml html => MarkdownHtml html
  | DetailsAccordion summary code => DetailsAccordion summary (htmlEncode code)
  | PreCode code => PreCode (htmlEncode code)
  end.

(** A form with text typed into it, after one user bubble. *)
Definition typed_form : Form :=
  mkForm (mkPage [user_entry paragraph "hi"] false false true []) "  and you?" [].

(** A wording for exceptions, for examples. *)
Definition type_error_text (m : Message) : string :=
  "cannot show a message of role " ++ role m.

(** A fetched history whose second message cannot be shown. *)
Definition broken_history : list Message :=
  [mkMessage "user" [text_part "hi"]; call_without_args].


(** * Properties *)

(** ** Strings and lists *)

Lemma append_cons (a : ascii) (s t : string) :
  (String a s ++ t)%string = String a (s ++ t)%string.
Proof. reflexivity. Qed.

Lemma append_empty_r (s : string) : (s ++ "")%string = s.
Proof.
  induction s as [|a s IH]; [reflexivity|]. now rewrite append_cons, IH.
Qed.

Lemma append_assoc (s1 s2 s3 : string) :
  ((s1 ++ s2) ++ s3)%string = (s1 ++ (s2 ++ s3))%string.
Proof.
  induction s1 as [|a s1 IH]; [reflexivity|]. now rewrite !append_cons, IH.
Qed.

Lemma join_cons (x : string) (l : list string) :
  join (x :: l) = (x ++ join l)%string.
Proof.
  unfold join. destruct l as [|y l]; cbn.
  - symmetry. apply append_empty_r.
  - reflexivity.
Qed.

Lemma join_app (l1 l2 : list string) :
  join (l1 ++ l2) = (join l1 ++ join l2)%string.
Proof.
  induction l1 as [|x l1 IH].
  - reflexivity.
  - rewrite <- app_comm_cons, !join_cons, IH. now rewrite append_assoc.
Qed.

Lemma update_last_snoc {A} (f : A -> A) (l : list A) (x : A) :
  update_last f (l ++ [x]) = l ++ [f x].
Proof.
  induction l as [|y l IH]; [reflexivity|].
  simpl. rewrite IH. destruct (l ++ [x]) eqn:E; [|reflexivity].
  now destruct l.
Qed.

Lemma Forall2_snoc_inv {A B} (R : A -> B -> Prop) (l : list A) (k : list B) :
  Forall2 R l k ->
  (l = [] /\ k = []) \/
  (exists l0 x k0 y, l = l0 ++ [x] /\ k = k0 ++ [y] /\ Forall2 R l0 k0 /\ R x y).
Proof.
  intros H. destruct H as [|x y l k Hxy H]; [now left | right].
  revert x y Hxy. induction H as [|x' y' l k Hxy' H IH]; intros x y Hxy.
  - exists [], x, [], y. repeat split; [constructor | exact Hxy].
  - destruct (IH x' y' Hxy') as (l0 & a & k0 & b & -> & -> & H0 & Hab).
    exists (x :: l0), a, (y :: k0), b. repeat split; [now constructor | exact Hab].
Qed.

(** ** Text of parts *)

Lemma truthy_false (s : string) : truthy s = false -> s = "".
Proof.
  unfold truthy. intros H. apply negb_false_iff in H. now apply String.eqb_eq.
Qed.

Lemma getTextFromParts_text_of_parts (ps : list Part) :
  getTextFromParts ps = text_of_parts ps.
Proof.
  unfold getTextFromParts, text_of_parts.
  induction ps as [|p ps IH]; [reflexivity|].
  cbn [List.filter]. destruct (is_text p); cbn [andb]; [|exact IH].
  destruct (truthy (text_or_empty p)) eqn:T; cbn [map]; rewrite ?join_cons.
  - now rewrite IH.
  - apply truthy_false in T. now rewrite T, IH.
Qed.

Lemma text_of_parts_app (ps qs : list Part) :
  text_of_parts (ps ++ qs) = (text_of_parts ps ++ text_of_parts qs)%string.
Proof.
  unfold text_of_parts. now rewrite List.filter_app, map_app, join_app.
Qed.

Lemma filter_text_idem (ps : list Part) :
  List.filter is_text (List.filter is_text ps) = List.filter is_text ps.
Proof.
  induction ps as [|p ps IH]; [reflexivity|].
  cbn [List.filter]. destruct (is_text p) eqn:E; [|exact IH].
  cbn [List.filter]. now rewrite E, IH.
Qed.

Lemma filter_text_nontext (ps : list Part) :
  List.filter is_text (List.filter (fun p => negb (is_text p)) ps) = [].
Proof.
  induction ps as [|p ps IH]; [reflexivity|].
  cbn [List.filter]. destruct (is_text p) eqn:E; cbn [negb]; [exact IH|].
  cbn [List.filter]. now rewrite E.
Qed.

Lemma text_of_parts_nontext (ps : list Part) :
  text_of_parts (List.filter (fun p => negb (is_text p)) ps) = "".
Proof. unfold text_of_parts. now rewrite filter_text_nontext. Qed.

Lemma text_of_parts_placeholders {A} (l : list A) :
  text_of_parts (map (fun _ => placeholder) l) = "".
Proof. induction l as [|x l IH]; [reflexivity | exact IH]. Qed.

Lemma text_of_parts_text_part (s : string) : text_of_parts [text_part s] = s.
Proof. reflexivity. Qed.

Lemma forallb_filter {A} (f g : A -> bool) (l : list A) :
  forallb f l = true -> forallb f (List.filter g l) = true.
Proof.
  induction l as [|x l IH]; [reflexivity|].
  cbn [forallb List.filter]. intros [Hx Hl]%andb_prop.
  destruct (g x); cbn [forallb]; rewrite ?Hx; auto.
Qed.

Section RawText.

Variable marked_parse : string -> string.
Variable JSON_stringify : json -> string.

Lemma renderPart_renderable (p : Part) :
  renderable p = true ->
  exists nodes, renderPart marked_parse JSON_stringify (Some p) = Some nodes.
Proof.
  unfold renderable, renderPart, encoded_json. intros H.
  destruct (String.eqb (type p) "text"); [eauto|].
  destruct (String.eqb (type p) "function_call").
  { destruct (args p); [eauto | discriminate]. }
  destruct (String.eqb (type p) "function_response"); [|eauto].
  destruct (response p); [eauto | discriminate].
Qed.

Lemma render_all_renderable (ps : list Part) :
  forallb renderable ps = true ->
  exists nodes, render_all marked_parse JSON_stringify ps = Some nodes.
Proof.
  induction ps as [|p ps IH]; [now exists []|].
  cbn [forallb]. intros [Hp Hps]%andb_prop.
  destruct (renderPart_renderable p Hp) as [n Hn].
  destruct (IH Hps) as [ns Hns].
  exists (n ++ ns). cbn [render_all]. now rewrite Hn, Hns.
Qed.

Lemma renderMessageContent_normal (c : ContentDiv) (ps : list Part) :
  forallb renderable ps = true ->
  exists nodes,
    renderMessageContent marked_parse JSON_stringify c ps
    = Normal (mkContentDiv (Some (text_of_parts ps)) nodes).
Proof.
  intros H. unfold renderMessageContent.
  destruct (render_all_renderable (List.filter (fun p => negb (is_text p)) ps))
    as [blocks Hb]; [now apply forallb_filter|].
  rewrite Hb. cbn [dataset_rawText].
  rewrite getTextFromParts_text_of_parts.
  unfold text_of_parts at 1 2. rewrite filter_text_idem. fold (text_of_parts ps).
  eauto.
Qed.

Lemma extend_content_normal (m : Message) (c : ContentDiv) :
  forallb renderable (parts m) = true ->
  exists nodes,
    extend_content marked_parse JSON_stringify m c
    = Normal (mkContentDiv
                (Some (or_empty (dataset_rawText c) ++ text_of_parts (parts m))%string)
                nodes).
Proof.
  intros H. unfold extend_content.
  match goal with
  | |- context [renderMessageContent _ _ ?c' ?ps] =>
      destruct (renderMessageContent_normal c' ps) as [nodes Hn]
  end.
  - rewrite !forallb_app. rewrite forallb_filter by exact H.
    cbn. rewrite andb_true_r.
    induction (List.filter is_accordion (innerHTML c)); [reflexivity | assumption].
  - exists nodes. rewrite Hn. do 2 f_equal.
    rewrite !text_of_parts_app, text_of_parts_placeholders, text_of_parts_nontext,
      text_of_parts_text_part.
    now rewrite getTextFromParts_text_of_parts.
Qed.

End RawText.

(** ** Raw text of an entry *)

Section Fidelity.

Variable marked_parse : string -> string.
Variable JSON_stringify : json -> string.

Lemma appendMessage_shows (m : Message) (log : list MessageDiv) :
  showable m = true ->
  exists e,
    appendMessage marked_parse JSON_stringify m log = Normal (log ++ [e])
    /\ shows e m.
Proof.
  unfold showable. intros [Hrole Hparts]%andb_prop.
  unfold appendMessage. rewrite Hrole.
  destruct (renderMessageContent_normal marked_parse JSON_stringify
              new_contentDiv (parts m) Hparts) as [nodes ->].
  eexists. split; [reflexivity|]. now split.
Qed.

Lemma addOrUpdateMessage_shows (m : Message) (log : list MessageDiv)
      (entries : list Message) :
  showable m = true ->
  Forall2 shows log entries ->
  exists log',
    addOrUpdateMessage marked_parse JSON_stringify m log = Normal log'
    /\ Forall2 shows log' (reducer entries m).
Proof.
  intros Hm H.
  assert (Happend : exists log',
             appendMessage marked_parse JSON_stringify m log = Normal log'
             /\ Forall2 shows log' (entries ++ [JSON_clone m])).
  { destruct (appendMessage_shows m log Hm) as (e & -> & He).
    eexists; split; [reflexivity|]. apply Forall2_app; [exact H|].
    constructor; [exact He | constructor]. }
  unfold addOrUpdateMessage, reducer.
  destruct (Forall2_snoc_inv _ _ _ H)
    as [[-> ->] | (log0 & e & entries0 & g & -> & -> & H0 & [Hrole Hraw])].
  { exact Happend. }
  rewrite !last_snoc, Hrole.
  destruct (String.eqb (role g) (role m) && negb (String.eqb (role m) "user"));
    [|exact Happend].
  apply andb_prop in Hm as [_ Hparts].
  destruct (extend_content_normal marked_parse JSON_stringify m (contentDiv e) Hparts)
    as [nodes ->].
  eexists; split; [reflexivity|].
  rewrite !update_last_snoc. apply Forall2_app; [exact H0|].
  constructor; [|constructor]. split; [exact Hrole|].
  unfold rawText_of in *. cbn [contentDiv with_content dataset_rawText].
  rewrite Hraw. cbn [or_empty push_parts parts].
  now rewrite text_of_parts_app.
Qed.

Lemma run_shows (ws : list Write) :
  forall (log : list MessageDiv) (entries : list Message),
    Forall (fun w => showable (written w) = true) ws ->
    Forall2 shows log entries ->
    exists log',
      run marked_parse JSON_stringify ws log = Normal log'
      /\ Forall2 shows log' (fold_left folded_step ws entries).
Proof.
  induction ws as [|w ws IH]; intros log entries Hws H.
  - exists log. now split.
  - inversion Hws as [|? ? Hw Hws']; subst.
    assert (Hstep : exists log1,
               write marked_parse JSON_stringify w log = Normal log1
               /\ Forall2 shows log1 (folded_step entries w)).
    { destruct w as [m|m]; cbn in Hw |- *.
      - now apply addOrUpdateMessage_shows.
      - destruct (appendMessage_shows m log Hw) as (e & -> & He).
        eexists; split; [reflexivity|]. apply Forall2_app; [exact H|].
        constructor; [exact He | constructor]. }
    destruct Hstep as (log1 & Hw1 & H1).
    cbn [run fold_left]. rewrite Hw1. now apply IH.
Qed.

(** C6.  After any sequence of writes of showable messages to an empty
    chat log, every entry carries as raw text the concatenation, in
    order, of the [text] fields of the text parts folded into it (a
    missing or empty field counts as the empty string); parts of any
    other type contribute nothing, since [text_of_parts] reads text
    parts only. *)
Theorem rawText_fidelity (ws : list Write) :
  Forall (fun w => showable (written w) = true) ws ->
  exists log,
    run marked_parse JSON_stringify ws [] = Normal log
    /\ Forall2 shows log (folded ws).
Proof.
  intros Hws. apply run_shows; [exact Hws | constructor].
Qed.

End Fidelity.

(** ** History merge: the role-adjacency rule *)

Lemma chain_snoc {A} (R : A -> A -> Prop) (l : list A) (x : A) :
  chain R l -> (forall y, last l = Some y -> R y x) -> chain R (l ++ [x]).
Proof.
  induction 1 as [|y|y z l Hyz Hl IH]; intros Hx; cbn.
  - constructor.
  - constructor; [now apply Hx | constructor].
  - constructor; [exact Hyz|]. apply IH. intros w Hw. now apply Hx.
Qed.

Lemma chain_replace_last {A} (R : A -> A -> Prop) (l : list A) (x x' : A) :
  chain R (l ++ [x]) ->
  (forall y, last l = Some y -> R y x -> R y x') ->
  chain R (l ++ [x']).
Proof.
  induction l as [|y l IH]; intros H Hx; cbn in *.
  - constructor.
  - destruct l as [|z l]; cbn in *.
    + inversion H; subst. constructor; [now apply Hx | constructor].
    + inversion H; subst. constructor; [assumption|].
      apply IH; [assumption|]. intros w Hw. now apply Hx.
Qed.

Lemma mergeable_chain_role (g : list Message) (a b : Message) :
  chain mergeable (a :: g) -> last (a :: g) = Some b -> role b = role a.
Proof.
  revert a. induction g as [|c g IH]; intros a H Hb.
  - cbn in Hb. now inversion Hb.
  - inversion H as [| |? ? ? [Hac _] Hc]; subst.
    rewrite Hac. now apply IH.
Qed.

Lemma mergeable_test (a b : Message) :
  String.eqb (role a) (role b) && negb (String.eqb (role b) "user") = true
  <-> mergeable a b.
Proof.
  unfold mergeable.
  rewrite andb_true_iff, negb_true_iff, String.eqb_eq, String.eqb_neq.
  reflexivity.
Qed.

Lemma mergedHistory_snoc (history : list Message) (m : Message) :
  mergedHistory (history ++ [m]) = reducer (mergedHistory history) m.
Proof. unfold mergedHistory. now rewrite fold_left_app. Qed.

Lemma fuse_snoc (g : list Message) (m : Message) :
  g <> [] -> fuse (g ++ [m]) = push_parts (parts m) (fuse g).
Proof.
  intros Hg. destruct g as [|a g]; [contradiction|].
  unfold fuse, push_parts. rewrite map_app, concat_app.
  cbn. now rewrite app_nil_r.
Qed.

Lemma fuse_one (m : Message) : fuse [m] = JSON_clone m.
Proof. unfold fuse, JSON_clone. cbn. now rewrite app_nil_r. Qed.

(** C5.  The merged history is the input cut into runs, one entry per
    run, in input order: neighbours inside a run have the same role,
    other than [user]; the last message of a run and the first of the
    next differ in role, or the second is a [user] message. *)
Theorem role_adjacency_rule (history : list Message) :
  exists groups : list (list Message),
    concat groups = history
    /\ Forall (fun g => g <> []) groups
    /\ mergedHistory history = map fuse groups
    /\ Forall (chain mergeable) groups
    /\ chain separate groups.
Proof.
  induction history as [|m history IH] using rev_ind.
  - exists []. repeat split; constructor.
  - destruct IH as (groups & Hcat & Hne & Hmerged & Hin & Hsep).
    rewrite mergedHistory_snoc, Hmerged. unfold reducer.
    destruct groups as [|g groups _] using rev_ind.
    + cbn in Hcat. subst history. exists [[m]]. cbn.
      rewrite <- fuse_one. repeat split; repeat constructor. discriminate.
    + rewrite map_app. cbn [map]. rewrite last_snoc.
      apply Forall_app in Hne as [Hne Hg]. inversion Hg as [|? ? Hg' _]; subst.
      apply Forall_app in Hin as [Hin Hgc]. inversion Hgc as [|? ? Hgc' _]; subst.
      destruct g as [|a g]; [contradiction|].
      destruct (String.eqb (role (fuse (a :: g))) (role m)
                && negb (String.eqb (role m) "user")) eqn:T.
      * apply mergeable_test in T. cbn [fuse role] in T.
        exists (groups ++ [(a :: g) ++ [m]]).
        rewrite update_last_snoc, map_app. cbn [map].
        rewrite fuse_snoc by discriminate.
        rewrite !concat_app. cbn [concat]. rewrite !app_nil_r, app_assoc.
        repeat split.
        -- apply Forall_app. split; [exact Hne|]. constructor; [|constructor].
           now destruct g.
        -- apply Forall_app. split; [exact Hin|]. constructor; [|constructor].
           apply chain_snoc; [exact Hgc'|]. intros b Hb.
           destruct T as [Hrole Huser]. split; [|exact Huser].
           now rewrite (mergeable_chain_role g a b Hgc' Hb).
        -- eapply chain_replace_last; [exact Hsep|].
           intros g0 _ Hg0 x y Hx Hy. now apply Hg0.
      * exists ((groups ++ [a :: g]) ++ [[m]]).
        rewrite !map_app. cbn [map]. rewrite fuse_one.
        rewrite !concat_app. cbn [concat]. rewrite !app_nil_r.
        repeat split.
        -- apply Forall_app. split; [apply Forall_app; split; assumption|].
           constructor; [discriminate | constructor].
        -- apply Forall_app. split; [apply Forall_app; split; assumption|].
           repeat constructor.
        -- apply chain_snoc; [exact Hsep|]. intros g0 Hg0.
           rewrite last_snoc in Hg0. inversion Hg0; subst g0.
           intros x y Hx Hy Hxy. cbn in Hy. inversion Hy; subst y.
           apply mergeable_test in Hxy.
           rewrite (mergeable_chain_role g a x Hgc' Hx) in Hxy.
           cbn [fuse role] in T. congruence.
Qed.

(** ** Live merge against the history fold *)

Section Equivalence.

Variable marked_parse : string -> string.
Variable JSON_stringify : json -> string.

(** One message for a whole turn: the chunks' parts, end to end. *)
Lemma mergedHistory_one_turn (r : string) (chunks : list Message) :
  r <> "user" ->
  chunks <> [] ->
  Forall (fun c => role c = r) chunks ->
  mergedHistory chunks = [mkMessage r (concat (map parts chunks))].
Proof.
  intros Hr. induction chunks as [|c chunks IH] using rev_ind; [contradiction|].
  intros _ [Hcs Hc]%Forall_app. inversion Hc as [|? ? Hrole _]; subst.
  rewrite mergedHistory_snoc, map_app, concat_app. cbn [map concat].
  rewrite app_nil_r.
  destruct chunks as [|c0 chunks]; [reflexivity|].
  rewrite IH by (discriminate || assumption).
  unfold reducer. cbn [last role].
  rewrite String.eqb_refl. apply String.eqb_neq in Hr. rewrite Hr. reflexivity.
Qed.

Lemma folded_live (chunks : list Message) (entries : list Message) :
  fold_left folded_step (map Live chunks) entries = fold_left reducer chunks entries.
Proof.
  revert entries. induction chunks as [|c chunks IH]; intros entries; [reflexivity|].
  cbn. apply IH.
Qed.

Lemma forallb_renderable_concat (chunks : list Message) :
  Forall (fun c => showable c = true) chunks ->
  forallb renderable (concat (map parts chunks)) = true.
Proof.
  induction 1 as [|c chunks [_ Hc]%andb_prop _ IH]; [reflexivity|].
  cbn [map concat]. now rewrite forallb_app, Hc, IH.
Qed.

(** X15.  The half of merge equivalence that holds: a turn fed chunk by chunk
    and the same turn fed as one message end in one entry each, with the
    same role and the same raw text. *)
Lemma merge_equivalence_rawText (r : string) (chunks : list Message) :
  r <> "user" ->
  chunks <> [] ->
  Forall (fun c => role c = r) chunks ->
  Forall (fun c => showable c = true) chunks ->
  exists chunked whole,
    run marked_parse JSON_stringify (map Live chunks) [] = Normal [chunked]
    /\ run marked_parse JSON_stringify
           [Live (mkMessage r (concat (map parts chunks)))] [] = Normal [whole]
    /\ dataset_role chunked = dataset_role whole
    /\ rawText_of chunked = rawText_of whole
    /\ rawText_of whole = Some (text_of_parts (concat (map parts chunks))).
Proof.
  intros Hr Hne Hroles Hshow.
  destruct (run_shows marked_parse JSON_stringify (map Live chunks) [] [])
    as (log1 & Hrun1 & H1).
  { apply Forall_fmap. exact Hshow. }
  { constructor. }
  rewrite folded_live in H1. fold (mergedHistory chunks) in H1.
  rewrite (mergedHistory_one_turn r chunks Hr Hne Hroles) in H1.
  inversion H1 as [|e1 g log1' ? [Hrole1 Hraw1] Hnil]; subst.
  inversion Hnil; subst.
  destruct (run_shows marked_parse JSON_stringify
              [Live (mkMessage r (concat (map parts chunks)))] [] [])
    as (log2 & Hrun2 & H2).
  { constructor; [|constructor]. cbn [written]. unfold showable. cbn [role parts].
    rewrite forallb_renderable_concat by exact Hshow. rewrite andb_true_r.
    destruct chunks as [|c chunks]; [contradiction|].
    inversion Hroles as [|? ? Hc _]; inversion Hshow as [|? ? Hs _]; subst.
    now apply andb_prop in Hs as [Hs _]. }
  { constructor. }
  inversion H2 as [|e2 g2 log2' ? [Hrole2 Hraw2] Hnil2]; subst.
  inversion Hnil2; subst.
  exists e1, e2. cbn [role parts JSON_clone] in *.
  repeat split; try assumption; congruence.
Qed.

Lemma Forall_update_last {A} (P : A -> Prop) (f : A -> A) (l : list A) :
  (forall x, P x -> P (f x)) -> Forall P l -> Forall P (update_last f l).
Proof.
  intros Hf. induction l as [|x l IH] using rev_ind; [constructor|].
  rewrite update_last_snoc. intros [Hl Hx]%Forall_app.
  apply Forall_app. split; [exact Hl|].
  inversion Hx; subst. constructor; [now apply Hf | constructor].
Qed.

Lemma mergedHistory_showable (history : list Message) :
  Forall (fun m => showable m = true) history ->
  Forall (fun m => showable m = true) (mergedHistory history).
Proof.
  induction history as [|m history IH] using rev_ind; [constructor|].
  intros [Hh Hm]%Forall_app. inversion Hm as [|? ? Hm' _]; subst.
  rewrite mergedHistory_snoc. specialize (IH Hh).
  assert (Hnew : Forall (fun m => showable m = true)
                   (mergedHistory history ++ [JSON_clone m])).
  { apply Forall_app. split; [exact IH|]. constructor; [exact Hm' | constructor]. }
  unfold reducer. destruct (last (mergedHistory history)) as [lastMessage|];
    [|exact Hnew].
  destruct (_ && _); [|exact Hnew].
  apply Forall_update_last; [|exact IH].
  intros x Hx. unfold showable in *. cbn [push_parts role parts].
  apply andb_prop in Hx as [Hr Hp]. apply andb_prop in Hm' as [_ Hmp].
  now rewrite Hr, forallb_app, Hp, Hmp.
Qed.

Lemma folded_direct (ms entries : list Message) :
  fold_left folded_step (map Direct ms) entries = entries ++ map JSON_clone ms.
Proof.
  revert entries. induction ms as [|m ms IH]; intros entries.
  - now rewrite app_nil_r.
  - cbn [map fold_left folded_step]. rewrite IH, <- app_assoc. reflexivity.
Qed.

(** A fetched history of showable messages is shown without exception,
    one entry for each merged message, in order. *)
Lemma show_history_entries (history : list Message) :
  Forall (fun m => showable m = true) history ->
  exists log,
    show_history marked_parse JSON_stringify history = Normal log
    /\ Forall2 shows log (mergedHistory history).
Proof.
  intros Hh. unfold show_history.
  destruct (run_shows marked_parse JSON_stringify
              (map Direct (mergedHistory history)) [] [])
    as (log & Hrun & Hlog).
  { apply Forall_fmap. now apply mergedHistory_showable. }
  { constructor. }
  exists log. split; [exact Hrun|].
  rewrite folded_direct in Hlog. cbn [app] in Hlog.
  revert Hlog. generalize (mergedHistory history). clear.
  intros ms. revert log. induction ms as [|m ms IH]; intros log H;
    inversion H; subst; constructor; auto.
Qed.

End Equivalence.

(** ** History merge leaves its input alone *)

Lemma read_message_weaken (h0 h : Heap.heap) (l : Heap.loc) (m : Message) :
  h0 ⊆ h -> Heap.read_message h0 l = Some m -> Heap.read_message h l = Some m.
Proof.
  intros Hsub. unfold Heap.read_message.
  destruct (h0 !! l) as [[r pl|]|] eqn:El; try discriminate.
  destruct (h0 !! pl) as [[|items]|] eqn:Ep; try discriminate.
  intros [= <-].
  rewrite (lookup_weaken _ _ _ _ El Hsub), (lookup_weaken _ _ _ _ Ep Hsub).
  reflexivity.
Qed.

Lemma read_message_inv (h : Heap.heap) (l : Heap.loc) (m : Message) :
  Heap.read_message h l = Some m ->
  exists pl, h !! l = Some (Heap.MessageObject (role m) pl)
             /\ h !! pl = Some (Heap.ArrayObject (parts m)).
Proof.
  unfold Heap.read_message.
  destruct (h !! l) as [[r pl|]|] eqn:El; try discriminate.
  destruct (h !! pl) as [[|items]|] eqn:Ep; try discriminate.
  intros [= <-]. eauto.
Qed.

Lemma is_copy_read (h0 h : Heap.heap) (cell : Heap.loc * Heap.loc) (m : Message) :
  is_copy h0 h cell m -> Heap.read_message h cell.1 = Some (JSON_clone m).
Proof.
  intros (Hl & Hp & _). unfold Heap.read_message. now rewrite Hl, Hp.
Qed.

Lemma is_copy_insert (h0 h : Heap.heap) (cell : Heap.loc * Heap.loc)
      (m : Message) (l : Heap.loc) (o : Heap.object) :
  is_copy h0 h cell m -> l <> cell.1 -> l <> cell.2 ->
  is_copy h0 (<[l := o]> h) cell m.
Proof.
  intros (Hl & Hp & H0l & H0p) H1 H2. unfold is_copy.
  rewrite !lookup_insert_ne by assumption. auto.
Qed.

Lemma copies_insert_fresh (h0 h : Heap.heap) (cells : list (Heap.loc * Heap.loc))
      (entries : list Message) (l : Heap.loc) (o : Heap.object) :
  Forall2 (is_copy h0 h) cells entries -> h !! l = None ->
  Forall2 (is_copy h0 (<[l := o]> h)) cells entries.
Proof.
  intros H Hl. eapply Forall2_impl; [exact H|].
  intros cell m Hc. apply is_copy_insert; [exact Hc | |];
    intros ->; destruct Hc as (H1 & H2 & _); congruence.
Qed.

Lemma copies_parts_allocated (h0 h : Heap.heap) (cells : list (Heap.loc * Heap.loc))
      (entries : list Message) (pl : Heap.loc) :
  Forall2 (is_copy h0 h) cells entries -> pl ∈ cells.*2 -> is_Some (h !! pl).
Proof.
  induction 1 as [|cell m cells entries Hc _ IH]; cbn.
  - intros Hin. now apply elem_of_nil in Hin.
  - intros [->|Hin]%elem_of_cons; [|now apply IH].
    destruct Hc as (_ & Hp & _). eauto.
Qed.

Lemma clone_and_push_copies (h0 h : Heap.heap) (cells : list (Heap.loc * Heap.loc))
      (entries : list Message) (cur : Heap.loc) (m : Message) :
  h0 ⊆ h ->
  Forall2 (is_copy h0 h) cells entries ->
  NoDup cells.*2 ->
  Heap.read_message h0 cur = Some m ->
  exists h' cell,
    Heap.clone_and_push h cells.*1 cur = Some (h', (cells ++ [cell]).*1)
    /\ h0 ⊆ h'
    /\ Forall2 (is_copy h0 h') (cells ++ [cell]) (entries ++ [JSON_clone m])
    /\ NoDup (cells ++ [cell]).*2.
Proof.
  intros Hsub Hcells Hnd Hread.
  unfold Heap.clone_and_push, Heap.JSON_clone.
  rewrite (read_message_weaken h0 h cur m Hsub Hread).
  unfold Heap.alloc.
  set (pl := fresh (dom h)).
  set (h1 := <[pl := Heap.ArrayObject (parts m)]> h).
  set (l := fresh (dom h1)).
  assert (Hpl : h !! pl = None) by (apply not_elem_of_dom, is_fresh).
  assert (Hl1 : h1 !! l = None) by (apply not_elem_of_dom, is_fresh).
  assert (Hlpl : l <> pl).
  { intros E. rewrite E in Hl1. unfold h1 in Hl1.
    now rewrite lookup_insert_eq in Hl1. }
  assert (Hl : h !! l = None).
  { unfold h1 in Hl1. now rewrite lookup_insert_ne in Hl1 by congruence. }
  exists (<[l := Heap.MessageObject (role m) pl]> h1), (l, pl).
  split; [now rewrite fmap_app|]. split; [|split].
  - apply insert_subseteq_r; [eapply lookup_weaken_None; eassumption|].
    apply insert_subseteq_r; [eapply lookup_weaken_None; eassumption|].
    exact Hsub.
  - apply Forall2_app.
    + apply copies_insert_fresh; [|exact Hl1].
      now apply copies_insert_fresh.
    + constructor; [|constructor]. unfold is_copy, h1. cbn.
      rewrite lookup_insert_eq, lookup_insert_ne, lookup_insert_eq by congruence.
      repeat split; eapply lookup_weaken_None; eassumption.
  - rewrite fmap_app. apply NoDup_app. split; [exact Hnd|]. split.
    + intros x Hx Hx'. cbn in Hx'. apply list_elem_of_singleton in Hx'. subst x.
      destruct (copies_parts_allocated _ _ _ _ _ Hcells Hx) as [o Ho].
      congruence.
    + apply NoDup_singleton.
Qed.

Lemma copies_insert_array (h0 h : Heap.heap) (cells : list (Heap.loc * Heap.loc))
      (entries : list Message) (pl : Heap.loc) (old items : list Part) :
  Forall2 (is_copy h0 h) cells entries ->
  pl ∉ cells.*2 ->
  h !! pl = Some (Heap.ArrayObject old) ->
  Forall2 (is_copy h0 (<[pl := Heap.ArrayObject items]> h)) cells entries.
Proof.
  intros H Hnot Hpl. induction H as [|cell m cells entries Hc _ IH]; [constructor|].
  cbn in Hnot. apply not_elem_of_cons in Hnot as [Hne Hnot].
  constructor; [|now apply IH].
  apply is_copy_insert; [exact Hc | | exact Hne].
  intros ->. destruct Hc as (Hl & _). congruence.
Qed.

Lemma reducer_copies (h0 h : Heap.heap) (cells : list (Heap.loc * Heap.loc))
      (entries : list Message) (cur : Heap.loc) (m : Message) :
  h0 ⊆ h ->
  Forall2 (is_copy h0 h) cells entries ->
  NoDup cells.*2 ->
  Heap.read_message h0 cur = Some m ->
  exists h' cells',
    Heap.reducer (h, cells.*1) cur = Some (h', cells'.*1)
    /\ h0 ⊆ h'
    /\ Forall2 (is_copy h0 h') cells' (reducer entries m)
    /\ NoDup cells'.*2.
Proof.
  intros Hsub Hcells Hnd Hread.
  destruct (read_message_inv h0 cur m Hread) as (pl0 & Hcur0 & Hpl0).
  pose proof (lookup_weaken _ _ _ _ Hcur0 Hsub) as Hcur.
  pose proof (lookup_weaken _ _ _ _ Hpl0 Hsub) as Hpl.
  assert (Hpush : exists h' cells',
             Heap.clone_and_push h cells.*1 cur = Some (h', cells'.*1)
             /\ h0 ⊆ h'
             /\ Forall2 (is_copy h0 h') cells' (entries ++ [JSON_clone m])
             /\ NoDup cells'.*2).
  { destruct (clone_and_push_copies h0 h cells entries cur m Hsub Hcells Hnd Hread)
      as (h' & cell & ?). now exists h', (cells ++ [cell]). }
  unfold Heap.reducer, reducer. rewrite Hcur.
  destruct (Forall2_snoc_inv _ _ _ Hcells)
    as [[-> ->] | (cells0 & [ll lpl] & entries0 & g & -> & -> & H0 & Hg)].
  { exact Hpush. }
  rewrite fmap_app in *. cbn [fmap list_fmap] in *. rewrite !last_snoc.
  destruct Hg as (Hll & Hlpl & H0ll & H0lpl). cbn [fst snd] in *.
  rewrite Hll.
  destruct (String.eqb (role g) (role m) && negb (String.eqb (role m) "user"));
    [|exact Hpush].
  rewrite Hpl, Hlpl.
  apply NoDup_app in Hnd as (Hnd0 & Hnot & _).
  exists (<[lpl := Heap.ArrayObject (parts g ++ parts m)]> h), (cells0 ++ [(ll, lpl)]).
  rewrite !fmap_app. cbn [fmap list_fmap fst snd].
  split; [reflexivity|]. split; [|split].
  - now apply insert_subseteq_r.
  - rewrite update_last_snoc. apply Forall2_app.
    + eapply copies_insert_array; [exact H0 | | exact Hlpl].
      intros Hin. apply (Hnot lpl Hin). now left.
    + constructor; [|constructor]. unfold is_copy. cbn [fst snd push_parts role parts].
      rewrite lookup_insert_eq, lookup_insert_ne by congruence. auto.
  - apply NoDup_app. split; [exact Hnd0|]. split; [exact Hnot | apply NoDup_singleton].
Qed.

Lemma reduce_copies (history : list Heap.loc) (ms : list Message) (h0 : Heap.heap) :
  Forall2 (fun l m => Heap.read_message h0 l = Some m) history ms ->
  forall (h : Heap.heap) (cells : list (Heap.loc * Heap.loc)) (entries : list Message),
    h0 ⊆ h ->
    Forall2 (is_copy h0 h) cells entries ->
    NoDup cells.*2 ->
    exists h' cells',
      Heap.reduce history (h, cells.*1) = Some (h', cells'.*1)
      /\ h0 ⊆ h'
      /\ Forall2 (is_copy h0 h') cells' (fold_left reducer ms entries).
Proof.
  induction 1 as [|cur m history ms Hread _ IH]; intros h cells entries Hsub Hc Hnd.
  - exists h, cells. auto.
  - destruct (reducer_copies h0 h cells entries cur m Hsub Hc Hnd Hread)
      as (h1 & cells1 & Hstep & Hsub1 & Hc1 & Hnd1).
    cbn [Heap.reduce fold_left]. rewrite Hstep. now apply IH.
Qed.

(** C7.  Run on a store [h] that holds the fetched messages, the fold of
    [loadHistory] ends; every object of [h], so every message object and
    parts array of the input, is afterwards what it was; the merged
    messages are objects that [h] did not hold, and they read as the
    result of the fold on values. *)
Theorem loadHistory_keeps_input (h : Heap.heap) (history : list Heap.loc)
        (ms : list Message) :
  Forall2 (fun l m => Heap.read_message h l = Some m) history ms ->
  exists h' merged,
    Heap.reduce history (h, []) = Some (h', merged)
    /\ (forall l o, h !! l = Some o -> h' !! l = Some o)
    /\ Forall2 (fun l m => Heap.read_message h' l = Some m) history ms
    /\ Forall (fun l => h !! l = None) merged
    /\ Forall2 (fun l m => Heap.read_message h' l = Some m) merged (mergedHistory ms).
Proof.
  intros Hin.
  destruct (reduce_copies history ms h Hin h [] []) as (h' & cells & Hred & Hsub & Hc);
    [reflexivity | constructor | constructor |].
  exists h', cells.*1. split; [exact Hred|]. split; [|split; [|split]].
  - intros l o Hl. exact (lookup_weaken _ _ _ _ Hl Hsub).
  - eapply Forall2_impl; [exact Hin|]. intros l m Hl.
    now apply (read_message_weaken h h').
  - clear Hred. induction Hc as [|cell m cells entries (_ & _ & Hl & _) _ IH];
      constructor; assumption.
  - unfold mergedHistory. clear Hred.
    induction Hc as [|cell m cells entries Hcell _ IH]; constructor; [|exact IH].
    rewrite (is_copy_read _ _ _ _ Hcell). unfold JSON_clone. now destruct m.
Qed.

(** ** The stream listeners *)

Section ListenerFacts.

Variable marked_parse : string -> string.
Variable JSON_stringify : json -> string.
Variable JSON_parse : string -> option Message.

Lemma same_display_refl (pg : Page) : same_display pg pg.
Proof. now repeat split. Qed.

Lemma dispatch_same_display (pg1 pg2 : Page) (ev : Event) :
  same_display pg1 pg2 ->
  same_display (dispatch marked_parse JSON_stringify JSON_parse pg1 ev)
               (dispatch marked_parse JSON_stringify JSON_parse pg2 ev).
Proof.
  intros (Hlog & Hin & Hsend & Hsse).
  destruct ev as [[data|]| |[|]]; cbn; unfold same_display.
  - unfold on_message. destruct (truthy data); [|auto].
    destruct (JSON_parse data) as [m|]; [|cbn; auto].
    rewrite Hlog.
    destruct (addOrUpdateMessage marked_parse JSON_stringify m (chatLog pg2));
      cbn; auto.
  - auto.
  - unfold on_error. cbn [console_log chatLog]. rewrite Hlog.
    destruct (appendMessage marked_parse JSON_stringify errorMessage (chatLog pg2));
      cbn; auto.
  - cbn. auto.
  - auto.
Qed.

Lemma run_same_display (evs : list Event) (pg1 pg2 : Page) :
  same_display pg1 pg2 ->
  same_display (fold_left (dispatch marked_parse JSON_stringify JSON_parse) evs pg1)
               (fold_left (dispatch marked_parse JSON_stringify JSON_parse) evs pg2).
Proof.
  revert pg1 pg2. induction evs as [|ev evs IH]; intros pg1 pg2 H; [exact H|].
  cbn [fold_left]. apply IH. now apply dispatch_same_display.
Qed.

(** C8, amended.  A chunk whose data [JSON.parse] rejects is dropped:
    the chat log, the input controls and the stream are as before, and
    whatever events follow, the page shows what it would show had the
    chunk never arrived.  The failure is logged when the data is not
    empty; empty data is dropped before the parse and leaves no line. *)
Theorem malformed_chunk_ignored (pg : Page) (data : string) :
  JSON_parse data = None ->
  let pg' := on_message marked_parse JSON_stringify JSON_parse (Some data) pg in
  console pg' = console pg ++ (if truthy data then [Failed_to_parse data] else [])
  /\ same_display pg' pg
  /\ forall evs,
       same_display
         (fold_left (dispatch marked_parse JSON_stringify JSON_parse) evs pg')
         (fold_left (dispatch marked_parse JSON_stringify JSON_parse) evs pg).
Proof.
  intros Hparse pg'.
  assert (E : pg' = if truthy data then console_log (Failed_to_parse data) pg else pg).
  { unfold pg', on_message. rewrite Hparse. now destruct (truthy data). }
  assert (D : same_display pg' pg).
  { rewrite E. destruct (truthy data); now repeat split. }
  split; [|split; [exact D|]].
  - rewrite E. destruct (truthy data); [reflexivity|]. now rewrite app_nil_r.
  - intros evs. now apply run_same_display.
Qed.

(** C9.  An event whose data is missing or empty changes nothing, the
    console included; an event with data goes to [JSON.parse], and from
    there to the merge or to the console. *)
Theorem empty_data_discarded (pg : Page) :
  on_message marked_parse JSON_stringify JSON_parse None pg = pg
  /\ on_message marked_parse JSON_stringify JSON_parse (Some "") pg = pg
  /\ forall c s,
       on_message marked_parse JSON_stringify JSON_parse (Some (String c s)) pg
       = match JSON_parse (String c s) with
         | Some message =>
             match addOrUpdateMessage marked_parse JSON_stringify message (chatLog pg) with
             | Normal log => set_chatLog log pg
             | Throw log => console_log (Failed_to_parse (String c s)) (set_chatLog log pg)
             end
         | None => console_log (Failed_to_parse (String c s)) pg
         end.
Proof. repeat split. Qed.

Lemma appendMessage_errorMessage (log : list MessageDiv) :
  appendMessage marked_parse JSON_stringify errorMessage log
  = Normal (log ++ [error_entry marked_parse]).
Proof. reflexivity. Qed.

(** C10.  The error listener adds its system entry at the end of the
    chat log and leaves every earlier entry as it was, whatever the last
    entry is; two failures leave two entries.  The same message given to
    [addOrUpdateMessage] after a system entry is folded into that entry
    instead. *)
Theorem stream_error_appends_entry (pg : Page) :
  let failed := on_error marked_parse JSON_stringify in
  let twice := "Connection error. Please try again.Connection error. Please try again." in
  chatLog (failed pg) = chatLog pg ++ [error_entry marked_parse]
  /\ chatLog (failed (failed pg))
     = chatLog pg ++ [error_entry marked_parse; error_entry marked_parse]
  /\ addOrUpdateMessage marked_parse JSON_stringify errorMessage
       (chatLog pg ++ [error_entry marked_parse])
     = Normal (chatLog pg ++ [entry "system" twice [MarkdownHtml (marked_parse twice)]]).
Proof.
  intros failed twice.
  assert (E : forall p, chatLog (failed p) = chatLog p ++ [error_entry marked_parse]).
  { intros p. unfold failed, on_error. cbn [console_log chatLog].
    now rewrite appendMessage_errorMessage. }
  split; [apply E|]. split.
  - rewrite !E. now rewrite <- app_assoc.
  - unfold addOrUpdateMessage. rewrite last_snoc. cbn.
    now rewrite update_last_snoc.
Qed.

End ListenerFacts.

(** ** Escaping *)

Lemma occurs_append (c : ascii) (s t : string) :
  occurs c (s ++ t) = occurs c s || occurs c t.
Proof.
  unfold occurs. induction s as [|a s IH]; [reflexivity|].
  rewrite append_cons. cbn [list_ascii_of_string existsb]. now rewrite IH, orb_assoc.
Qed.

Lemma occurs_replaceAll_other (c d : ascii) (by_ s : string) :
  occurs c by_ = false -> occurs c s = false ->
  occurs c (replaceAll d by_ s) = false.
Proof.
  intros Hby. induction s as [|a s IH]; [reflexivity|].
  unfold occurs in *. cbn [list_ascii_of_string existsb replaceAll].
  intros [Ha Hs]%orb_false_elim.
  destruct (Ascii.eqb a d).
  - fold (occurs c (by_ ++ replaceAll d by_ s)). rewrite occurs_append.
    unfold occurs. now rewrite Hby, IH.
  - cbn [list_ascii_of_string existsb]. now rewrite Ha, IH.
Qed.

Lemma occurs_replaceAll_same (c : ascii) (by_ s : string) :
  occurs c by_ = false -> occurs c (replaceAll c by_ s) = false.
Proof.
  intros Hby. induction s as [|a s IH]; [reflexivity|].
  cbn [replaceAll]. destruct (Ascii.eqb a c) eqn:E.
  - now rewrite occurs_append, Hby, IH.
  - unfold occurs in *. cbn [list_ascii_of_string existsb].
    rewrite IH, orb_false_r. rewrite Ascii.eqb_sym. exact E.
Qed.

(** X2.  What [htmlEncode] returns has no angle bracket in it. *)
Lemma htmlEncode_no_angle (input : string) :
  occurs "<" (htmlEncode input) = false /\ occurs ">" (htmlEncode input) = false.
Proof.
  unfold htmlEncode. split.
  - apply occurs_replaceAll_other; [reflexivity|].
    now apply occurs_replaceAll_same.
  - now apply occurs_replaceAll_same.
Qed.

(** ** Blocks of an entry across chunks *)

Section Blocks.

Variable marked_parse : string -> string.
Variable JSON_stringify : json -> string.

Lemma addOrUpdateMessage_new (m : Message) (log : list MessageDiv) (e : MessageDiv) :
  String.eqb (dataset_role e) (role m) && negb (String.eqb (role m) "user") = false ->
  addOrUpdateMessage marked_parse JSON_stringify m (log ++ [e])
  = appendMessage marked_parse JSON_stringify m (log ++ [e]).
Proof. intros H. unfold addOrUpdateMessage. now rewrite last_snoc, H. Qed.

Lemma addOrUpdateMessage_extend (m : Message) (log : list MessageDiv) (e : MessageDiv) :
  String.eqb (dataset_role e) (role m) && negb (String.eqb (role m) "user") = true ->
  addOrUpdateMessage marked_parse JSON_stringify m (log ++ [e])
  = match extend_content marked_parse JSON_stringify m (contentDiv e) with
    | Normal c => Normal (log ++ [with_content c e])
    | Throw c => Throw (log ++ [with_content c e])
    end.
Proof.
  intros H. unfold addOrUpdateMessage. rewrite last_snoc, H.
  destruct (extend_content marked_parse JSON_stringify m (contentDiv e));
    now rewrite update_last_snoc.
Qed.

(** The history path keeps the call: the three chunks of the scenario,
    fetched as history, are shown as one entry with the call's block. *)
Lemma show_history_keeps_call :
  show_history marked_parse JSON_stringify [chunk1; chunk2; chunk3]
  = Normal [entry "model" "The answer is 42"
              [MarkdownHtml (marked_parse "The answer is 42");
               calc_block JSON_stringify]].
Proof. reflexivity. Qed.

(** C1.  The turn [call_then_text] fed as one message and fed as the two
    chunks [chunk2], [chunk3] ends in the same raw text, and in
    different blocks: the call, against a placeholder. *)
Theorem merge_equivalence_blocks_differ :
  run marked_parse JSON_stringify [Live call_then_text] []
  = Normal [entry "model" "42"
              [MarkdownHtml (marked_parse "42"); calc_block JSON_stringify]]
  /\ run marked_parse JSON_stringify [Live chunk2; Live chunk3] []
     = Normal [entry "model" "42"
                 [MarkdownHtml (marked_parse "42"); placeholder_block JSON_stringify]]
  /\ calc_block JSON_stringify <> placeholder_block JSON_stringify.
Proof.
  split; [reflexivity|]. split; [reflexivity|]. discriminate.
Qed.

(** C2.  An entry shows a call and a part of unknown type; after one
    more chunk of text the call is a placeholder and the other block is
    gone; after a second chunk no block is left. *)
Theorem extend_rewrites_blocks :
  let before :=
    entry "model" ""
      [calc_block JSON_stringify;
       PreCode (htmlEncode (JSON_stringify (part_object image_part)))] in
  let after :=
    entry "model" "Done."
      [MarkdownHtml (marked_parse "Done."); placeholder_block JSON_stringify] in
  let later :=
    entry "model" "Done.Done." [MarkdownHtml (marked_parse "Done.Done.")] in
  run marked_parse JSON_stringify [Live call_and_image] [] = Normal [before]
  /\ addOrUpdateMessage marked_parse JSON_stringify more_text [before] = Normal [after]
  /\ addOrUpdateMessage marked_parse JSON_stringify more_text [after] = Normal [later]
  /\ nonText_blocks after = [placeholder_block JSON_stringify]
  /\ nonText_blocks later = [].
Proof.
  repeat split; reflexivity.
Qed.

(** C3.  The three chunks of the scenario, on an empty log and after the
    user's bubble: one model entry, raw text ["The answer is 42"], and
    for its one block a placeholder where the call was. *)
Theorem streaming_scenario (log : list MessageDiv) (input : string) :
  let final :=
    entry "model" "The answer is 42"
      [MarkdownHtml (marked_parse "The answer is 42");
       placeholder_block JSON_stringify] in
  run marked_parse JSON_stringify [Live chunk1; Live chunk2; Live chunk3] []
  = Normal [final]
  /\ run marked_parse JSON_stringify [Live chunk1; Live chunk2; Live chunk3]
         (log ++ [user_entry marked_parse input])
     = Normal (log ++ [user_entry marked_parse input; final])
  /\ nonText_blocks final = [placeholder_block JSON_stringify]
  /\ placeholder_block JSON_stringify <> calc_block JSON_stringify.
Proof.
  split; [reflexivity|]. split; [|split; [reflexivity | discriminate]].
  cbn [run write].
  rewrite addOrUpdateMessage_new by reflexivity.
  change (appendMessage marked_parse JSON_stringify chunk1
            (log ++ [user_entry marked_parse input]))
    with (Normal ((log ++ [user_entry marked_parse input])
                    ++ [entry "model" "The answer is "
                          [MarkdownHtml (marked_parse "The answer is ")]])).
  cbv beta iota.
  rewrite addOrUpdateMessage_extend by reflexivity.
  change (extend_content marked_parse JSON_stringify chunk2 _)
    with (Normal (mkContentDiv (Some "The answer is ")
                    [MarkdownHtml (marked_parse "The answer is ");
                     calc_block JSON_stringify])).
  cbv beta iota.
  rewrite addOrUpdateMessage_extend by reflexivity.
  change (extend_content marked_parse JSON_stringify chunk3 _)
    with (Normal (mkContentDiv (Some "The answer is 42")
                    [MarkdownHtml (marked_parse "The answer is 42");
                     placeholder_block JSON_stringify])).
  cbv beta iota. rewrite <- app_assoc. reflexivity.
Qed.

(** C4.  A null part renders as nothing, and the JSON of a call is
    encoded; the name of the call is written into the summary as it
    came, angle brackets included. *)
Theorem renderPart_name_not_encoded :
  renderPart marked_parse JSON_stringify None = Some []
  /\ renderPart marked_parse JSON_stringify (Some injected_call)
     = Some [DetailsAccordion ("Function Call: " ++ markup_name)
               (htmlEncode (JSON_stringify (JObject [])))]
  /\ htmlEncode markup_name <> markup_name
  /\ exists before after,
       markup [DetailsAccordion ("Function Call: " ++ markup_name)
                 (htmlEncode (JSON_stringify (JObject [])))]
       = (before ++ "<summary>Function Call: <img src=x onerror=alert(1)></summary>"
                 ++ after)%string.
Proof.
  split; [reflexivity|]. split; [reflexivity|]. split; [discriminate|].
  eexists (newline ++ spaces 20 ++ "<details class=" ++ dquote ++ "accordion" ++ dquote
           ++ ">" ++ newline ++ spaces 24)%string.
  eexists. unfold markup. cbn [map]. rewrite join_cons. cbn [join String.concat].
  rewrite append_empty_r. cbn [outerHTML].
  rewrite !append_assoc. reflexivity.
Qed.

End Blocks.

(** ** The theorems at work *)

Lemma rawText_fidelity_witness :
  let ws := [Live chunk1; Live chunk2; Live chunk3; Direct errorMessage] in
  Forall (fun w => showable (written w) = true) ws
  /\ exists log,
       run paragraph kind_of ws [] = Normal log /\ Forall2 shows log (folded ws).
Proof.
  assert (H : Forall (fun w => showable (written w) = true)
                [Live chunk1; Live chunk2; Live chunk3; Direct errorMessage])
    by (repeat constructor).
  split; [exact H | exact (rawText_fidelity paragraph kind_of _ H)].
Defined.

Lemma loadHistory_keeps_input_witness :
  let history := [1%positive; 3%positive; 5%positive] in
  Forall2 (fun l m => Heap.read_message spec_history_heap l = Some m)
          history spec_history
  /\ exists h' merged,
       Heap.reduce history (spec_history_heap, []) = Some (h', merged)
       /\ (forall l o, spec_history_heap !! l = Some o -> h' !! l = Some o)
       /\ Forall2 (fun l m => Heap.read_message h' l = Some m) history spec_history
       /\ Forall (fun l => spec_history_heap !! l = None) merged
       /\ Forall2 (fun l m => Heap.read_message h' l = Some m) merged
                  (mergedHistory spec_history).
Proof.
  assert (H : Forall2 (fun l m => Heap.read_message spec_history_heap l = Some m)
                      [1%positive; 3%positive; 5%positive] spec_history)
    by (repeat constructor).
  split; [exact H | exact (loadHistory_keeps_input _ _ _ H)].
Defined.

Lemma malformed_chunk_ignored_witness :
  parse_42 "{42" = None
  /\ let pg' := on_message paragraph kind_of parse_42 (Some "{42") streaming_page in
     console pg' = console streaming_page ++ [Failed_to_parse "{42"]
     /\ same_display pg' streaming_page
     /\ forall evs,
          same_display
            (fold_left (dispatch paragraph kind_of parse_42) evs pg')
            (fold_left (dispatch paragraph kind_of parse_42) evs streaming_page).
Proof.
  split; [reflexivity|].
  exact (malformed_chunk_ignored paragraph kind_of parse_42 streaming_page "{42"
           eq_refl).
Defined.

(** C8 as stated fails on empty data: [JSON.parse] rejects the empty
    string, and the listener logs nothing for it. *)
Lemma empty_chunk_not_logged :
  parse_42 "" = None
  /\ console (on_message paragraph kind_of parse_42 (Some "") streaming_page)
     <> console streaming_page ++ [Failed_to_parse ""].
Proof.
  split; [reflexivity | discriminate].
Qed.

(** A chunk that parses and then fails to render is not covered by C8:
    in the extend branch its text has reached the raw text of the entry
    before [renderPart] raises, and the markup stays as it was. *)
Lemma unrenderable_chunk_half_applied :
  let pg := mkPage [entry "model" "The answer is "
                      [MarkdownHtml (paragraph "The answer is ")]]
                   true true false [] in
  on_message paragraph kind_of parse_call (Some "{call}") pg
  = mkPage [entry "model" "The answer is abc"
              [MarkdownHtml (paragraph "The answer is ")]]
           true true false [Failed_to_parse "{call}"].
Proof. reflexivity. Qed.

(** * Further properties *)

(** ** [htmlEncode] *)

Lemma replaceAll_append (c : ascii) (by_ s t : string) :
  replaceAll c by_ (s ++ t) = (replaceAll c by_ s ++ replaceAll c by_ t)%string.
Proof.
  induction s as [|a s IH]; [reflexivity|].
  rewrite append_cons. cbn [replaceAll]. rewrite IH.
  destruct (Ascii.eqb a c); [now rewrite append_assoc | now rewrite append_cons].
Qed.

Lemma htmlEncode_cons (c : ascii) (rest : string) :
  htmlEncode (String c rest) = (escape c ++ htmlEncode rest)%string.
Proof.
  unfold htmlEncode, escape. cbn [replaceAll].
  destruct (Ascii.eqb c "&") eqn:Eamp.
  { now rewrite !replaceAll_append. }
  cbn [replaceAll]. destruct (Ascii.eqb c "<") eqn:Elt.
  { now rewrite replaceAll_append. }
  cbn [replaceAll]. destruct (Ascii.eqb c ">") eqn:Egt; reflexivity.
Qed.

Lemma htmlEncode_escape_all (s : string) : htmlEncode s = escape_all s.
Proof.
  induction s as [|c s IH]; [reflexivity|].
  rewrite htmlEncode_cons, IH. reflexivity.
Qed.

Lemma escape_all_append (s t : string) :
  escape_all (s ++ t) = (escape_all s ++ escape_all t)%string.
Proof.
  induction s as [|c s IH]; [reflexivity|].
  rewrite append_cons. cbn [escape_all]. now rewrite IH, append_assoc.
Qed.

(** X1.  The three replacements of [htmlEncode], one after the other, come to
    one pass that writes each character by itself: the entity for an
    ampersand or an angle bracket, the character otherwise.  The
    ampersands that the later replacements write are not encoded twice. *)
Theorem htmlEncode_one_pass (s : string) : htmlEncode s = escape_all s.
Proof. exact (htmlEncode_escape_all s). Qed.

(** X5.  Encoding a text in pieces and encoding it whole give the same. *)
Theorem htmlEncode_append (s t : string) :
  htmlEncode (s ++ t) = (htmlEncode s ++ htmlEncode t)%string.
Proof. rewrite !htmlEncode_escape_all. apply escape_all_append. Qed.

Lemma escape_head (c : ascii) :
  exists tail,
    escape c = String (if Ascii.eqb c "<" || Ascii.eqb c ">" then "&"%char else c) tail.
Proof.
  unfold escape.
  destruct (Ascii.eqb c "&") eqn:Eamp.
  { apply Ascii.eqb_eq in Eamp. subst c. cbn. eauto. }
  destruct (Ascii.eqb c "<"); [cbn; eauto|].
  destruct (Ascii.eqb c ">"); cbn; eauto.
Qed.

Lemma escape_all_injective (s t : string) : escape_all s = escape_all t -> s = t.
Proof.
  revert t. induction s as [|c s IH]; intros [|d t] H.
  - reflexivity.
  - cbn [escape_all] in H. destruct (escape_head d) as [tl E]. rewrite E in H.
    discriminate H.
  - cbn [escape_all] in H. destruct (escape_head c) as [tl E]. rewrite E in H.
    discriminate H.
  - cbn [escape_all] in H. unfold escape in H.
    destruct (Ascii.eqb c "&") eqn:Ec1; destruct (Ascii.eqb d "&") eqn:Ed1;
    [| destruct (Ascii.eqb d "<") eqn:Ed2; [| destruct (Ascii.eqb d ">") eqn:Ed3]
     | destruct (Ascii.eqb c "<") eqn:Ec2; [| destruct (Ascii.eqb c ">") eqn:Ec3]
     | destruct (Ascii.eqb c "<") eqn:Ec2; [| destruct (Ascii.eqb c ">") eqn:Ec3];
       (destruct (Ascii.eqb d "<") eqn:Ed2; [| destruct (Ascii.eqb d ">") eqn:Ed3])];
      repeat match goal with
             | E : Ascii.eqb _ _ = true |- _ => apply Ascii.eqb_eq in E; subst
             end;
      rewrite ?append_cons in H; cbn in H;
      try discriminate H;
      try (injection H as H; f_equal; now apply IH);
      try (injection H as Hc H; subst; f_equal; now apply IH);
      try (injection H as Hc H; subst; discriminate).
Qed.

(** X3.  What [htmlEncode] writes can be read back: two texts with the same
    encoding are the same text. *)
Theorem htmlEncode_injective (s t : string) : htmlEncode s = htmlEncode t -> s = t.
Proof. rewrite !htmlEncode_escape_all. apply escape_all_injective. Qed.

Lemma length_append (s t : string) :
  String.length (s ++ t) = String.length s + String.length t.
Proof.
  induction s as [|a s IH]; [reflexivity|].
  rewrite append_cons. cbn [String.length]. now rewrite IH.
Qed.

Lemma escape_plain_char (c : ascii) :
  Ascii.eqb "&" c || Ascii.eqb "<" c || Ascii.eqb ">" c = false ->
  escape c = String c "".
Proof.
  intros H. apply orb_false_elim in H as [H Hgt]. apply orb_false_elim in H as [Hamp Hlt].
  unfold escape. rewrite (Ascii.eqb_sym c "&"), (Ascii.eqb_sym c "<"),
    (Ascii.eqb_sym c ">"), Hamp, Hlt, Hgt. reflexivity.
Qed.

Lemma escape_special_char (c : ascii) :
  Ascii.eqb "&" c || Ascii.eqb "<" c || Ascii.eqb ">" c = true ->
  1 < String.length (escape c).
Proof.
  unfold escape. rewrite (Ascii.eqb_sym c "&"), (Ascii.eqb_sym c "<"),
    (Ascii.eqb_sym c ">").
  destruct (Ascii.eqb "&" c); [cbn; lia|].
  destruct (Ascii.eqb "<" c); [cbn; lia|].
  destruct (Ascii.eqb ">" c); [cbn; lia | discriminate].
Qed.

Lemma length_escape (c : ascii) : 1 <= String.length (escape c).
Proof.
  unfold escape. destruct (Ascii.eqb c "&"); [cbn; lia|].
  destruct (Ascii.eqb c "<"); [cbn; lia|].
  destruct (Ascii.eqb c ">"); cbn; lia.
Qed.

Lemma length_escape_all (s : string) : String.length s <= String.length (escape_all s).
Proof.
  induction s as [|c s IH]; [reflexivity|].
  cbn [escape_all String.length]. rewrite length_append.
  pose proof (length_escape c). lia.
Qed.

Lemma plain_cons (c : ascii) (s : string) :
  plain (String c s)
  = negb (Ascii.eqb "&" c || Ascii.eqb "<" c || Ascii.eqb ">" c) && plain s.
Proof.
  unfold plain, occurs. cbn [list_ascii_of_string existsb].
  destruct (Ascii.eqb "&" c), (Ascii.eqb "<" c), (Ascii.eqb ">" c);
    cbn; rewrite ?orb_true_r; reflexivity.
Qed.

Lemma escape_all_plain (s : string) : plain s = true -> escape_all s = s.
Proof.
  induction s as [|c s IH]; [reflexivity|].
  rewrite plain_cons. intros [Hc Hs]%andb_prop. apply negb_true_iff in Hc.
  cbn [escape_all]. now rewrite (escape_plain_char c Hc), IH.
Qed.

(** X4.  [htmlEncode] leaves a text as it is exactly when the text has no
    ampersand and no angle bracket; any other text comes out longer. *)
Theorem htmlEncode_fixes_plain_text (s : string) :
  (plain s = true <-> htmlEncode s = s)
  /\ (plain s = false -> String.length s < String.length (htmlEncode s)).
Proof.
  rewrite htmlEncode_escape_all.
  assert (Hlong : plain s = false -> String.length s < String.length (escape_all s)).
  { induction s as [|c s IH]; [discriminate|].
    rewrite plain_cons. cbn [escape_all String.length]. rewrite length_append.
    destruct (Ascii.eqb "&" c || Ascii.eqb "<" c || Ascii.eqb ">" c) eqn:E.
    - intros _. pose proof (escape_special_char c E).
      pose proof (length_escape_all s). lia.
    - cbn [negb andb]. intros Hs. specialize (IH Hs).
      pose proof (length_escape c). lia. }
  split; [|exact Hlong]. split; [apply escape_all_plain|].
  intros E. destruct (plain s) eqn:P; [reflexivity|].
  specialize (Hlong eq_refl). rewrite E in Hlong. lia.
Qed.

(** ** Text and blocks of an entry *)

(** X6.  The text of a list of parts is the same whether it is read part by
    part or piece by piece; parts of other types add nothing to it, and
    filtering the text parts first changes nothing. *)
Theorem getTextFromParts_append (ps qs : list Part) :
  getTextFromParts (ps ++ qs) = (getTextFromParts ps ++ getTextFromParts qs)%string
  /\ getTextFromParts (List.filter (fun p => negb (is_text p)) ps) = ""
  /\ getTextFromParts (List.filter is_text ps) = getTextFromParts ps.
Proof.
  rewrite !getTextFromParts_text_of_parts. split; [apply text_of_parts_app|].
  split; [apply text_of_parts_nontext|].
  unfold text_of_parts. now rewrite filter_text_idem.
Qed.

Section Rendering.

Variable marked_parse : string -> string.
Variable JSON_stringify : json -> string.

(** X7.  [renderPart] raises on a call part without [args] and on a response
    part without [response], and on nothing else. *)
Theorem renderPart_raises_iff (p : Part) :
  renderPart marked_parse JSON_stringify (Some p) = None
  <-> (type p = "function_call" /\ args p = None)
      \/ (type p = "function_response" /\ response p = None).
Proof.
  unfold renderPart, encoded_json.
  destruct (String.eqb_spec (type p) "text") as [Et|Et].
  { split; [discriminate|]. intros [[E _]|[E _]]; rewrite E in Et; discriminate. }
  destruct (String.eqb_spec (type p) "function_call") as [Ec|Ec].
  { destruct (args p); split; try discriminate; auto.
    - intros [[_ H]|[E _]]; [discriminate | rewrite E in Ec; discriminate].
  }
  destruct (String.eqb_spec (type p) "function_response") as [Er|Er].
  { destruct (response p); split; try discriminate; auto.
    intros [[E _]|[_ H]]; [contradiction | discriminate]. }
  split; [discriminate|]. intros [[E _]|[E _]]; contradiction.
Qed.




Lemma filter_nontext_idem (ps : list Part) :
  List.filter (fun p => negb (is_text p)) (List.filter (fun p => negb (is_text p)) ps)
  = List.filter (fun p => negb (is_text p)) ps.
Proof.
  induction ps as [|p ps IH]; [reflexivity|].
  cbn [List.filter]. destruct (negb (is_text p)) eqn:E; [|exact IH].
  cbn [List.filter]. now rewrite E, IH.
Qed.

Lemma filter_nontext_text (ps : list Part) :
  List.filter (fun p => negb (is_text p)) (List.filter is_text ps) = [].
Proof.
  induction ps as [|p ps IH]; [reflexivity|].
  cbn [List.filter]. destruct (is_text p) eqn:E; [|exact IH].
  cbn [List.filter]. now rewrite E.
Qed.

Lemma text_of_parts_filter_text (ps : list Part) :
  text_of_parts (List.filter is_text ps) = text_of_parts ps.
Proof. unfold text_of_parts. now rewrite filter_text_idem. Qed.

Lemma renderMessageContent_unfold (c : ContentDiv) (ps : list Part) :
  renderMessageContent marked_parse JSON_stringify c ps
  = match render_all marked_parse JSON_stringify
            (List.filter (fun p => negb (is_text p)) ps) with
    | Some blocks =>
        Normal (mkContentDiv (Some (text_of_parts ps))
                  (markdown_block marked_parse (text_of_parts ps) ++ blocks))
    | None => Throw (mkContentDiv (Some (text_of_parts ps)) (innerHTML c))
    end.
Proof.
  unfold renderMessageContent, markdown_block.
  rewrite getTextFromParts_text_of_parts.
  rewrite text_of_parts_filter_text. reflexivity.
Qed.

(** X8.  A rendering that succeeds replaces the content wholesale: what the
    element held before leaves no trace.  A rendering that raises has
    already stored the new raw text and leaves the markup as it was. *)
Theorem renderMessageContent_wholesale (c c' : ContentDiv) (ps : list Part) :
  (exists r,
      renderMessageContent marked_parse JSON_stringify c ps = Normal r
      /\ renderMessageContent marked_parse JSON_stringify c' ps = Normal r)
  \/ (renderMessageContent marked_parse JSON_stringify c ps
      = Throw (mkContentDiv (Some (getTextFromParts ps)) (innerHTML c))
      /\ renderMessageContent marked_parse JSON_stringify c' ps
         = Throw (mkContentDiv (Some (getTextFromParts ps)) (innerHTML c'))).
Proof.
  rewrite !renderMessageContent_unfold, getTextFromParts_text_of_parts.
  destruct (render_all marked_parse JSON_stringify
              (List.filter (fun p => negb (is_text p)) ps));
    [left; eauto | right; auto].
Qed.

(** X9.  The text comes first: however text parts and other parts are mixed
    in a message, it is shown as its text parts followed by its other
    parts. *)
Theorem renderMessageContent_text_first (c : ContentDiv) (ps : list Part) :
  renderMessageContent marked_parse JSON_stringify c ps
  = renderMessageContent marked_parse JSON_stringify c
      (List.filter is_text ps ++ List.filter (fun p => negb (is_text p)) ps).
Proof.
  rewrite !renderMessageContent_unfold.
  rewrite List.filter_app, filter_nontext_text, filter_nontext_idem. cbn [app].
  rewrite text_of_parts_app, text_of_parts_nontext, append_empty_r.
  rewrite text_of_parts_filter_text. reflexivity.
Qed.

End Rendering.

(** ** What the extend branch keeps *)

Section Extending.

Variable marked_parse : string -> string.
Variable JSON_stringify : json -> string.







Lemma showable_render_all (m : Message) :
  showable m = true ->
  exists blocks,
    render_all marked_parse JSON_stringify
      (List.filter (fun p => negb (is_text p)) (parts m)) = Some blocks.
Proof.
  intros [_ H]%andb_prop. apply render_all_renderable. now apply forallb_filter.
Qed.

Lemma render_all_Some_renderable (ps : list Part) (blocks : list Node) :
  render_all marked_parse JSON_stringify ps = Some blocks ->
  forallb renderable ps = true.
Proof.
  revert blocks. induction ps as [|p ps IH]; intros blocks; [reflexivity|].
  cbn [render_all forallb].
  destruct (renderPart marked_parse JSON_stringify (Some p)) as [n|] eqn:E;
    [|discriminate].
  destruct (render_all marked_parse JSON_stringify ps) as [ns|]; [|discriminate].
  intros _. rewrite (IH ns eq_refl), andb_true_r.
  unfold renderable. unfold renderPart, encoded_json in E.
  destruct (String.eqb (type p) "text") eqn:Et.
  { apply String.eqb_eq in Et. rewrite Et. reflexivity. }
  destruct (String.eqb (type p) "function_call").
  { destruct (args p); [reflexivity | discriminate]. }
  destruct (String.eqb (type p) "function_response"); [|reflexivity].
  destruct (response p); [reflexivity | discriminate].
Qed.

Lemma renderable_text (p : Part) : is_text p = true -> renderable p = true.
Proof.
  unfold is_text, renderable. intros E. apply String.eqb_eq in E. now rewrite E.
Qed.

Lemma forallb_renderable_split (ps : list Part) :
  forallb renderable ps
  = forallb renderable (List.filter (fun p => negb (is_text p)) ps).
Proof.
  induction ps as [|p ps IH]; [reflexivity|].
  cbn [forallb List.filter]. destruct (is_text p) eqn:E; cbn [negb forallb].
  - now rewrite (renderable_text p E).
  - now rewrite IH.
Qed.


End Extending.

(** ** What a live merge leaves alone *)

Section Merging.

Variable marked_parse : string -> string.
Variable JSON_stringify : json -> string.

Lemma appendMessage_state (m : Message) (log : list MessageDiv) :
  state_of (appendMessage marked_parse JSON_stringify m log) = log
  \/ exists e,
      state_of (appendMessage marked_parse JSON_stringify m log) = log ++ [e]
      /\ dataset_role e = role m.
Proof.
  unfold appendMessage. destruct (valid_token (role m)); [|now left].
  destruct (renderMessageContent marked_parse JSON_stringify new_contentDiv (parts m));
    [right; eauto | now left].
Qed.

Lemma addOrUpdateMessage_state (m : Message) (log : list MessageDiv) (e : MessageDiv) :
  (String.eqb (dataset_role e) (role m) && negb (String.eqb (role m) "user") = true
   /\ exists c,
       state_of (addOrUpdateMessage marked_parse JSON_stringify m (log ++ [e]))
       = log ++ [with_content c e])
  \/ (String.eqb (dataset_role e) (role m) && negb (String.eqb (role m) "user") = false
      /\ state_of (addOrUpdateMessage marked_parse JSON_stringify m (log ++ [e]))
         = state_of (appendMessage marked_parse JSON_stringify m (log ++ [e]))).
Proof.
  destruct (String.eqb (dataset_role e) (role m) && negb (String.eqb (role m) "user"))
    eqn:T.
  - left. split; [reflexivity|].
    rewrite (addOrUpdateMessage_extend marked_parse JSON_stringify m log e T).
    destruct (extend_content marked_parse JSON_stringify m (contentDiv e)); eauto.
  - right. split; [reflexivity|].
    now rewrite (addOrUpdateMessage_new marked_parse JSON_stringify m log e T).
Qed.

Lemma addOrUpdateMessage_bounds (m : Message) (log : list MessageDiv) :
  let after := state_of (addOrUpdateMessage marked_parse JSON_stringify m log) in
  take (length log - 1) after = take (length log - 1) log
  /\ map dataset_role (take (length log) after) = map dataset_role log
  /\ length log <= length after <= S (length log).
Proof.
  cbv zeta. destruct log as [|e log _] using rev_ind.
  - cbn [length Nat.sub take map]. unfold addOrUpdateMessage. cbn [last].
    destruct (appendMessage_state m []) as [->|(x & -> & _)]; cbn; repeat split; lia.
  - rewrite length_app. cbn [length]. replace (length log + 1 - 1) with (length log) by lia.
    replace (length log + 1) with (length (log ++ [e])) by (rewrite length_app; cbn; lia).
    destruct (addOrUpdateMessage_state m log e) as [[_ [c ->]]|[_ ->]].
    + rewrite !take_app_length. rewrite !length_app. cbn [length].
      replace (length log + 1) with (length (log ++ [with_content c e]))
        by (rewrite length_app; cbn; lia).
      rewrite firstn_all, !map_app. cbn. repeat split; lia.
    + destruct (appendMessage_state m (log ++ [e])) as [->|(x & -> & _)].
      * rewrite take_app_length, firstn_all. repeat split; lia.
      * rewrite <- app_assoc, !take_app_length.
        rewrite app_assoc, take_app_length.
        rewrite !length_app. cbn [length]. repeat split; lia.
Qed.

(** X13.  A live merge touches the last entry or adds one after it: it never
    removes an entry, never changes an entry before the last, and never
    changes the role of any entry, whether it returns or raises. *)
Theorem addOrUpdateMessage_frame (m : Message) (log : list MessageDiv) :
  let after := state_of (addOrUpdateMessage marked_parse JSON_stringify m log) in
  take (length log - 1) after = take (length log - 1) log
  /\ map dataset_role (take (length log) after) = map dataset_role log
  /\ length log <= length after <= S (length log).
Proof. exact (addOrUpdateMessage_bounds m log). Qed.

Lemma alternating_replace_last (log : list MessageDiv) (e e' : MessageDiv) :
  dataset_role e' = dataset_role e ->
  alternating (log ++ [e]) -> alternating (log ++ [e']).
Proof.
  intros Hrole H. unfold alternating in *.
  eapply chain_replace_last; [exact H|].
  intros y _ Hy. now rewrite Hrole.
Qed.

Lemma addOrUpdateMessage_alternating (m : Message) (log : list MessageDiv) :
  alternating log ->
  alternating (state_of (addOrUpdateMessage marked_parse JSON_stringify m log)).
Proof.
  intros H. destruct log as [|e log _] using rev_ind.
  - unfold addOrUpdateMessage. cbn [last].
    destruct (appendMessage_state m []) as [->|(x & -> & _)]; [exact H | constructor].
  - destruct (addOrUpdateMessage_state m log e) as [[_ [c ->]]|[T ->]].
    + now apply (alternating_replace_last log e).
    + destruct (appendMessage_state m (log ++ [e])) as [->|(x & -> & Hx)];
        [exact H|].
      apply chain_snoc; [exact H|]. intros y Hy. rewrite last_snoc in Hy.
      inversion Hy; subst y. rewrite Hx. intros E.
      rewrite E, String.eqb_refl in T. cbn in T.
      apply negb_false_iff in T. now apply String.eqb_eq.
Qed.

(** X14.  Streamed chunks keep the bubbles alternating: if no two neighbours
    of the chat log have the same role, user entries apart, a message
    event leaves it so, whether its chunk is merged, dropped or fails
    half way. *)
Theorem on_message_keeps_alternation (JSON_parse : string -> option Message)
        (data : option string) (pg : Page) :
  alternating (chatLog pg) ->
  alternating (chatLog (on_message marked_parse JSON_stringify JSON_parse data pg)).
Proof.
  intros H. unfold on_message.
  destruct data as [d|]; [|exact H].
  destruct (truthy d); [|exact H].
  destruct (JSON_parse d) as [m|]; [|exact H].
  pose proof (addOrUpdateMessage_alternating m (chatLog pg) H) as Hm.
  destruct (addOrUpdateMessage marked_parse JSON_stringify m (chatLog pg));
    exact Hm.
Qed.

End Merging.

(** ** The history fold as a function *)

Lemma concat_parts_update_last (ps : list Part) (acc : list Message) (g : Message) :
  concat (map parts (update_last (push_parts ps) (acc ++ [g])))
  = concat (map parts (acc ++ [g])) ++ ps.
Proof.
  rewrite update_last_snoc, !map_app, !concat_app. cbn.
  now rewrite !app_nil_r, app_assoc.
Qed.

Lemma reducer_cases (acc : list Message) (m : Message) :
  (acc = [] /\ reducer acc m = [JSON_clone m])
  \/ (exists l g, acc = l ++ [g] /\ mergeable g m
                  /\ reducer acc m = l ++ [push_parts (parts m) g])
  \/ (exists l g, acc = l ++ [g] /\ ~ mergeable g m
                  /\ reducer acc m = acc ++ [JSON_clone m]).
Proof.
  destruct acc as [|g l _] using rev_ind; [now left | right].
  unfold reducer. rewrite last_snoc.
  destruct (String.eqb (role g) (role m) && negb (String.eqb (role m) "user")) eqn:T.
  - left. exists l, g. rewrite update_last_snoc. apply mergeable_test in T. auto.
  - right. exists l, g. split; [reflexivity|]. split; [|reflexivity].
    intros H. apply mergeable_test in H. congruence.
Qed.

(** X17.  The history fold loses nothing and never grows the list: the parts
    of the merged messages, end to end, are the parts of the fetched
    ones in their order, and an empty history stays empty. *)
Theorem mergedHistory_keeps_parts (history : list Message) :
  concat (map parts (mergedHistory history)) = concat (map parts history)
  /\ length (mergedHistory history) <= length history
  /\ (mergedHistory history = [] <-> history = []).
Proof.
  induction history as [|m history (IHp & IHl & IHe)] using rev_ind.
  - repeat split; auto.
  - rewrite mergedHistory_snoc, map_app, concat_app, length_app. cbn [map concat length].
    rewrite app_nil_r, <- IHp.
    destruct (reducer_cases (mergedHistory history) m)
      as [[E ->]|[(l & g & E & _ & ->)|(l & g & E & _ & ->)]].
    + rewrite E. cbn. rewrite app_nil_r. repeat split; try lia; try discriminate.
      intros H. now destruct history.
    + rewrite E in *. rewrite <- concat_parts_update_last, update_last_snoc.
      rewrite !length_app in *. cbn [length] in *.
      repeat split; try lia.
      * intros H. now destruct l.
      * intros H. now destruct history.
    + rewrite map_app, concat_app, length_app. cbn. rewrite app_nil_r.
      repeat split; try lia.
      * intros H. now destruct (mergedHistory history).
      * intros H. now destruct history.
Qed.

Lemma mergedHistory_separated (history : list Message) :
  chain (fun a b => ~ mergeable a b) (mergedHistory history).
Proof.
  induction history as [|m history IH] using rev_ind; [constructor|].
  rewrite mergedHistory_snoc.
  destruct (reducer_cases (mergedHistory history) m)
    as [[E ->]|[(l & g & E & _ & ->)|(l & g & E & Hn & ->)]].
  - constructor.
  - rewrite E in IH. eapply chain_replace_last; [exact IH|].
    intros y _ Hy. exact Hy.
  - apply chain_snoc; [exact IH|]. intros y Hy. rewrite E, last_snoc in Hy.
    inversion Hy; subst y. exact Hn.
Qed.

Lemma chain_app_inv {A} (R : A -> A -> Prop) (l k : list A) (x y : A) :
  chain R (l ++ [x] ++ y :: k) -> R x y /\ chain R (l ++ [x]) .
Proof.
  induction l as [|a l IH]; cbn.
  - intros H. inversion H; subst. split; [assumption | constructor].
  - intros H. destruct l as [|b l]; cbn in *.
    + inversion H as [| |? ? ? Hax Hrest]; subst.
      inversion Hrest; subst. split; [assumption|]. constructor; [assumption|constructor].
    + inversion H as [| |? ? ? Hab Hrest]; subst.
      destruct (IH Hrest) as [Hxy Hc]. split; [assumption|].
      constructor; assumption.
Qed.

Lemma JSON_clone_id (m : Message) : JSON_clone m = m.
Proof. now destruct m. Qed.

Lemma fold_reducer_separated (l : list Message) :
  forall acc,
    chain (fun a b => ~ mergeable a b) (acc ++ l) ->
    fold_left reducer l acc = acc ++ l.
Proof.
  induction l as [|m l IH]; intros acc H.
  - now rewrite app_nil_r.
  - cbn [fold_left].
    assert (E : reducer acc m = acc ++ [m]).
    { destruct (reducer_cases acc m)
        as [[E ->]|[(a & g & E & Hm & _)|(a & g & E & _ & ->)]].
      - rewrite E, JSON_clone_id. reflexivity.
      - subst acc. rewrite <- app_assoc in H.
        apply chain_app_inv in H as [Hn _]. contradiction.
      - now rewrite JSON_clone_id. }
    rewrite E. rewrite IH; [now rewrite <- app_assoc|].
    now rewrite <- app_assoc.
Qed.

(** X18.  Merging a merged history changes nothing: in the result of the fold
    no two neighbours can be joined, so a second fold keeps every
    message as it is. *)
Theorem mergedHistory_idempotent (history : list Message) :
  mergedHistory (mergedHistory history) = mergedHistory history
  /\ chain (fun a b => ~ mergeable a b) (mergedHistory history).
Proof.
  split; [|apply mergedHistory_separated].
  unfold mergedHistory at 1. rewrite fold_reducer_separated; [reflexivity|].
  apply mergedHistory_separated.
Qed.

Section Paths.

Variable marked_parse : string -> string.
Variable JSON_stringify : json -> string.

Lemma shows_same_view (l1 l2 : list MessageDiv) (entries : list Message) :
  Forall2 shows l1 entries -> Forall2 shows l2 entries ->
  map dataset_role l1 = map dataset_role l2 /\ map rawText_of l1 = map rawText_of l2.
Proof.
  intros H1. revert l2. induction H1 as [|e g l1 entries [Hr Ht] _ IH]; intros l2 H2.
  - inversion H2; subst. now split.
  - inversion H2 as [|e2 ? l2' ? [Hr2 Ht2] H2']; subst.
    destruct (IH _ H2') as [IHr IHt]. cbn. split; congruence.
Qed.

(** X16.  The two ways to a chat log agree on roles and raw text: messages
    that arrive as live chunks, and the same messages fetched as history,
    give entry by entry the same role and the same raw text. *)
Theorem live_matches_history (ms : list Message) :
  Forall (fun m => showable m = true) ms ->
  exists live loaded,
    run marked_parse JSON_stringify (map Live ms) [] = Normal live
    /\ show_history marked_parse JSON_stringify ms = Normal loaded
    /\ map dataset_role live = map dataset_role loaded
    /\ map rawText_of live = map rawText_of loaded.
Proof.
  intros Hms.
  destruct (run_shows marked_parse JSON_stringify (map Live ms) [] [])
    as (live & Hlive & H1); [now apply Forall_fmap | constructor |].
  rewrite folded_live in H1. fold (mergedHistory ms) in H1.
  destruct (show_history_entries marked_parse JSON_stringify ms Hms)
    as (loaded & Hloaded & H2).
  exists live, loaded. split; [exact Hlive|]. split; [exact Hloaded|].
  exact (shows_same_view _ _ _ H1 H2).
Qed.

End Paths.

(** ** The history fold on the heap: no shared arrays *)

Lemma reduce_copies_distinct (history : list Heap.loc) (ms : list Message)
      (h0 : Heap.heap) :
  Forall2 (fun l m => Heap.read_message h0 l = Some m) history ms ->
  forall (h : Heap.heap) (cells : list (Heap.loc * Heap.loc)) (entries : list Message),
    h0 ⊆ h ->
    Forall2 (is_copy h0 h) cells entries ->
    NoDup cells.*2 ->
    exists h' cells',
      Heap.reduce history (h, cells.*1) = Some (h', cells'.*1)
      /\ Forall2 (is_copy h0 h') cells' (fold_left reducer ms entries)
      /\ NoDup cells'.*2.
Proof.
  induction 1 as [|cur m history ms Hread _ IH]; intros h cells entries Hsub Hc Hnd.
  - exists h, cells. auto.
  - destruct (reducer_copies h0 h cells entries cur m Hsub Hc Hnd Hread)
      as (h1 & cells1 & Hstep & Hsub1 & Hc1 & Hnd1).
    cbn [Heap.reduce fold_left]. rewrite Hstep. now apply IH.
Qed.

(** X19.  The merged messages share no array: each has a parts array of its
    own, which the store did not hold before the fold, so that a later
    [push] into one entry can reach neither another entry nor the
    fetched history. *)
Theorem loadHistory_arrays_apart (h : Heap.heap) (history : list Heap.loc)
        (ms : list Message) :
  Forall2 (fun l m => Heap.read_message h l = Some m) history ms ->
  exists h' merged arrays,
    Heap.reduce history (h, []) = Some (h', merged)
    /\ Forall2 (fun l pl => exists r, h' !! l = Some (Heap.MessageObject r pl))
               merged arrays
    /\ NoDup arrays
    /\ Forall (fun pl => h !! pl = None) arrays.
Proof.
  intros Hin.
  destruct (reduce_copies_distinct history ms h Hin h [] [])
    as (h' & cells & Hred & Hc & Hnd); [reflexivity | constructor | constructor |].
  exists h', cells.*1, cells.*2. split; [exact Hred|]. split; [|split; [exact Hnd|]].
  - clear Hred Hnd. induction Hc as [|cell m cells entries (Hl & _) _ IH];
      constructor; eauto.
  - clear Hred Hnd. induction Hc as [|cell m cells entries (_ & _ & _ & Hp) _ IH];
      constructor; assumption.
Qed.

(** ** Loading the history *)

Section Loading.

Variable marked_parse : string -> string.
Variable JSON_stringify : json -> string.
Variable exception_message : Message -> string.

Lemma catch_load_normal (error_message : string) (log : list MessageDiv) :
  catch_load marked_parse JSON_stringify error_message log
  = Normal (log ++ [load_error_entry marked_parse error_message], [error_message]).
Proof. reflexivity. Qed.

Lemma appendMessage_unshowable (m : Message) (log : list MessageDiv) :
  showable m = false ->
  appendMessage marked_parse JSON_stringify m log = Throw log.
Proof.
  unfold appendMessage, showable. destruct (valid_token (role m)); [|reflexivity].
  cbn [andb]. intros H. rewrite renderMessageContent_unfold.
  destruct (render_all marked_parse JSON_stringify
              (List.filter (fun p => negb (is_text p)) (parts m))) as [blocks|] eqn:E;
    [|reflexivity].
  apply render_all_Some_renderable in E.
  rewrite forallb_renderable_split in H. congruence.
Qed.

Lemma forEach_appendMessage_app (ms ms' : list Message) (log : list MessageDiv) :
  forEach_appendMessage marked_parse JSON_stringify (ms ++ ms') log
  = match forEach_appendMessage marked_parse JSON_stringify ms log with
    | (log', None) => forEach_appendMessage marked_parse JSON_stringify ms' log'
    | stopped => stopped
    end.
Proof.
  revert log. induction ms as [|m ms IH]; intros log; [reflexivity|].
  cbn [app forEach_appendMessage].
  destruct (appendMessage marked_parse JSON_stringify m log); [apply IH | reflexivity].
Qed.

Lemma forEach_appendMessage_shows (ms : list Message) :
  forall (log : list MessageDiv) (entries : list Message),
    Forall (fun m => showable m = true) ms ->
    Forall2 shows log entries ->
    exists log',
      forEach_appendMessage marked_parse JSON_stringify ms log = (log', None)
      /\ Forall2 shows log' (entries ++ ms).
Proof.
  induction ms as [|m ms IH]; intros log entries Hms H.
  - exists log. now rewrite app_nil_r.
  - inversion Hms as [|? ? Hm Hms']; subst.
    destruct (appendMessage_shows marked_parse JSON_stringify m log Hm)
      as (e & He & Hshow).
    cbn [forEach_appendMessage]. rewrite He.
    destruct (IH (log ++ [e]) (entries ++ [m]) Hms') as (log' & Hrun & Hlog).
    { apply Forall2_app; [exact H|]. constructor; [exact Hshow | constructor]. }
    exists log'. split; [exact Hrun|]. now rewrite <- app_assoc in Hlog.
Qed.

(** X20.  [loadHistory] never raises, and what goes wrong is on the page: it
    ends with no error, or with one error on the console and, as the
    last entry of the chat log, the system message that words it. *)
Theorem loadHistory_never_raises (fetched : Fetched) (log : list MessageDiv) :
  exists final errors,
    loadHistory marked_parse JSON_stringify exception_message fetched log
    = Normal (final, errors)
    /\ (errors = []
        \/ exists error_message shown,
             errors = [error_message]
             /\ final = shown ++ [load_error_entry marked_parse error_message]).
Proof.
  destruct fetched as [msg|status|history]; cbn [loadHistory].
  - rewrite catch_load_normal. eauto 10.
  - rewrite catch_load_normal. eauto 10.
  - destruct (forEach_appendMessage marked_parse JSON_stringify
                (mergedHistory history) []) as [shown [m|]].
    + rewrite catch_load_normal. eauto 10.
    + eauto.
Qed.

(** X21.  A fetch that fails, or answers with an error status, does not empty
    the chat log: the entries it showed stay, and the system message
    follows them.  The status is written in decimal. *)
Theorem loadHistory_failed_fetch (log : list MessageDiv) :
  (forall error_message,
      loadHistory marked_parse JSON_stringify exception_message
        (Rejected error_message) log
      = Normal (log ++ [load_error_entry marked_parse error_message], [error_message]))
  /\ (forall status,
         loadHistory marked_parse JSON_stringify exception_message (Not_ok status) log
         = Normal (log ++ [load_error_entry marked_parse
                             ("HTTP error! Status: " ++ decimal status)%string],
                   [("HTTP error! Status: " ++ decimal status)%string])).
Proof. split; intros; reflexivity. Qed.

(** X22.  A fetched history of showable messages replaces the chat log: what
    the log showed before is gone, and the new log has one entry for
    each merged message, in order, with no error. *)
Theorem loadHistory_answered (history : list Message) (log : list MessageDiv) :
  Forall (fun m => showable m = true) history ->
  exists final,
    loadHistory marked_parse JSON_stringify exception_message (Answered history) log
    = Normal (final, [])
    /\ Forall2 shows final (mergedHistory history).
Proof.
  intros Hh. cbn [loadHistory].
  destruct (forEach_appendMessage_shows (mergedHistory history) [] [])
    as (final & Hrun & Hfinal);
    [now apply mergedHistory_showable | constructor |].
  rewrite Hrun. exists final. split; [reflexivity | exact Hfinal].
Qed.

(** X23.  A merged message that cannot be shown stops the load where it
    stands: the messages before it are shown, the system message with
    the text of the exception follows, and the messages after it are
    not shown. *)
Theorem loadHistory_stops_at_failure (history before after : list Message)
        (m : Message) (log : list MessageDiv) :
  mergedHistory history = before ++ m :: after ->
  Forall (fun x => showable x = true) before ->
  showable m = false ->
  exists shown,
    loadHistory marked_parse JSON_stringify exception_message (Answered history) log
    = Normal (shown ++ [load_error_entry marked_parse (exception_message m)],
              [exception_message m])
    /\ Forall2 shows shown before.
Proof.
  intros Hsplit Hbefore Hm. cbn [loadHistory]. rewrite Hsplit.
  destruct (forEach_appendMessage_shows before [] [] Hbefore)
    as (shown & Hrun & Hshown); [constructor|].
  rewrite forEach_appendMessage_app, Hrun. cbn [forEach_appendMessage].
  rewrite (appendMessage_unshowable m shown Hm), catch_load_normal.
  exists shown. split; [reflexivity | exact Hshown].
Qed.

End Loading.

(** ** Submitting the form *)

Section Submitting.

Variable marked_parse : string -> string.
Variable JSON_stringify : json -> string.
Variable JSON_stringify_compact : json -> string.
Variable trim : string -> string.

Lemma addOrUpdateMessage_user (input : string) (log : list MessageDiv) :
  truthy input = true ->
  addOrUpdateMessage marked_parse JSON_stringify
    (mkMessage "user" [text_part input]) log
  = Normal (log ++ [user_entry marked_parse input]).
Proof.
  intros Hin.
  assert (E : appendMessage marked_parse JSON_stringify
                (mkMessage "user" [text_part input]) log
              = Normal (log ++ [user_entry marked_parse input])).
  { unfold appendMessage, renderMessageContent, getTextFromParts, user_entry.
    cbn [role parts valid_token]. cbn [List.filter is_text text_part type String.eqb
      Ascii.eqb Bool.eqb andb negb text_or_empty text map render_all app].
    cbn. rewrite Hin. cbn. rewrite Hin. reflexivity. }
  unfold addOrUpdateMessage. destruct (last log) as [e|]; [|exact E].
  cbn [role]. replace (String.eqb "user" "user") with true by reflexivity.
  cbn [negb]. rewrite andb_false_r. exact E.
Qed.

(** X24.  A submission with text in it always makes a bubble of its own, also
    right after another user bubble: the trimmed text is appended as a
    user entry, the input is emptied, input and button are disabled, and
    one request goes out with the user message as its payload. *)
Theorem handleFormSubmit_submits (f : Form) :
  truthy (trim (chatInput_value f)) = true ->
  let inputText := trim (chatInput_value f) in
  handleFormSubmit marked_parse JSON_stringify JSON_stringify_compact trim f
  = Normal (mkForm
              (mkPage (chatLog (form_page f) ++ [user_entry marked_parse inputText])
                      true true false (console (form_page f)))
              ""
              (requests f
               ++ [JSON_stringify_compact
                     (JObject [("role", JString "user");
                               ("parts",
                                JArray [JObject [("type", JString "text");
                                                 ("text", JString inputText)]])])])).
Proof.
  intros Hin. cbv zeta. unfold handleFormSubmit. rewrite Hin.
  rewrite (addOrUpdateMessage_user _ _ Hin). reflexivity.
Qed.

(** X25.  Submitting never raises, and submitting again at once does nothing:
    the first submission has emptied the input, and an input that is
    blank after trimming is ignored. *)
Theorem handleFormSubmit_twice (f : Form) :
  trim "" = "" ->
  exists f',
    handleFormSubmit marked_parse JSON_stringify JSON_stringify_compact trim f
    = Normal f'
    /\ handleFormSubmit marked_parse JSON_stringify JSON_stringify_compact trim f'
       = Normal f'.
Proof.
  intros Htrim. unfold handleFormSubmit at 1.
  destruct (truthy (trim (chatInput_value f))) eqn:Hin.
  - rewrite (addOrUpdateMessage_user _ _ Hin). eexists. split; [reflexivity|].
    unfold handleFormSubmit. cbn [chatInput_value]. rewrite Htrim. reflexivity.
  - exists f. split; [reflexivity|]. unfold handleFormSubmit. now rewrite Hin.
Qed.

End Submitting.

(** ** The earliest script *)

Section EarlierScript.

Variable marked_parse : string -> string.
Variable JSON_stringify : json -> string.

(** X28.  The [renderPart] of part_000 is the one of main.js with the code of
    each block encoded, except on a call without [args] or a response
    without [response]: there main.js prints [undefined] and part_000
    raises. *)
Theorem renderPart_encodes_earlier (p : Part) :
  renderPart marked_parse JSON_stringify (Some p)
  = if renderable p
    then Some (map encode_code (Earlier.renderPart marked_parse JSON_stringify (Some p)))
    else None.
Proof.
  unfold renderPart, Earlier.renderPart, renderable, encoded_json, Earlier.stringified.
  destruct (String.eqb (type p) "text") eqn:Et.
  { apply String.eqb_eq in Et. rewrite Et. reflexivity. }
  destruct (String.eqb (type p) "function_call").
  { now destruct (args p). }
  destruct (String.eqb (type p) "function_response"); [|reflexivity].
  now destruct (response p).
Qed.











End EarlierScript.

(** ** Input controls across a turn *)

Section Controls.

Variable marked_parse : string -> string.
Variable JSON_stringify : json -> string.
Variable JSON_parse : string -> option Message.

Lemma on_message_same_controls (data : option string) (pg : Page) :
  let pg' := on_message marked_parse JSON_stringify JSON_parse data pg in
  chatInput_disabled pg' = chatInput_disabled pg
  /\ sendButton_disabled pg' = sendButton_disabled pg
  /\ sse_closed pg' = sse_closed pg
  /\ length (chatLog pg) <= length (chatLog pg').
Proof.
  cbv zeta. unfold on_message.
  destruct data as [d|]; [|auto].
  destruct (truthy d); [|auto].
  destruct (JSON_parse d) as [m|]; [|cbn; auto].
  pose proof (addOrUpdateMessage_bounds marked_parse JSON_stringify m (chatLog pg))
    as (_ & _ & Hlen & _).
  destruct (addOrUpdateMessage marked_parse JSON_stringify m (chatLog pg));
    cbn in *; auto.
Qed.

(** X26.  While chunks stream in, the controls stay as the submission left
    them: no sequence of message events enables the input or the button,
    closes the stream, or makes the chat log shorter. *)
Theorem streaming_keeps_controls (datas : list (option string)) (pg : Page) :
  let pg' :=
    fold_left (dispatch marked_parse JSON_stringify JSON_parse)
              (map MessageEvent datas) pg in
  chatInput_disabled pg' = chatInput_disabled pg
  /\ sendButton_disabled pg' = sendButton_disabled pg
  /\ sse_closed pg' = sse_closed pg
  /\ length (chatLog pg) <= length (chatLog pg').
Proof.
  cbv zeta. revert pg. induction datas as [|d datas IH]; intros pg; [cbn; auto|].
  cbn [map fold_left dispatch].
  destruct (on_message_same_controls d pg) as (H1 & H2 & H3 & H4).
  destruct (IH (on_message marked_parse JSON_stringify JSON_parse d pg))
    as (I1 & I2 & I3 & I4).
  repeat split; try congruence. lia.
Qed.

Lemma on_error_enables (pg : Page) :
  let pg' := on_error marked_parse JSON_stringify pg in
  chatInput_disabled pg' = false
  /\ sendButton_disabled pg' = false
  /\ sse_closed pg' = true.
Proof. cbv zeta. unfold on_error. now rewrite appendMessage_errorMessage. Qed.

(** X27.  A turn cannot end with the input stuck: whatever events came
    before, after an error event, or after a ready-state change to
    closed, the input and the button are enabled; the error event has
    closed the stream as well. *)
Theorem turn_end_enables_input (evs : list Event) (pg : Page) :
  let after ev :=
    fold_left (dispatch marked_parse JSON_stringify JSON_parse) (evs ++ [ev]) pg in
  (chatInput_disabled (after ErrorEvent) = false
   /\ sendButton_disabled (after ErrorEvent) = false
   /\ sse_closed (after ErrorEvent) = true)
  /\ (chatInput_disabled (after (ReadyStateChange true)) = false
      /\ sendButton_disabled (after (ReadyStateChange true)) = false).
Proof.
  cbv beta zeta. rewrite !fold_left_app. cbn [fold_left dispatch].
  split; [apply on_error_enables | split; reflexivity].
Qed.

End Controls.

(** ** The further theorems at work *)

Lemma htmlEncode_injective_witness :
  htmlEncode "a<b" = htmlEncode "a<b" /\ "a<b" = "a<b".
Proof.
  split; [reflexivity | exact (htmlEncode_injective "a<b" "a<b" eq_refl)].
Defined.


Lemma on_message_keeps_alternation_witness :
  alternating (chatLog streaming_page)
  /\ alternating
       (chatLog (on_message paragraph kind_of parse_42 (Some "{42}") streaming_page)).
Proof.
  assert (H : alternating (chatLog streaming_page)) by constructor.
  split; [exact H|].
  exact (on_message_keeps_alternation paragraph kind_of parse_42 (Some "{42}")
           streaming_page H).
Defined.

Lemma live_matches_history_witness :
  Forall (fun m => showable m = true) spec_history
  /\ exists live loaded,
       run paragraph kind_of (map Live spec_history) [] = Normal live
       /\ show_history paragraph kind_of spec_history = Normal loaded
       /\ map dataset_role live = map dataset_role loaded
       /\ map rawText_of live = map rawText_of loaded.
Proof.
  assert (H : Forall (fun m => showable m = true) spec_history)
    by (repeat constructor).
  split; [exact H | exact (live_matches_history paragraph kind_of spec_history H)].
Defined.

Lemma merge_equivalence_rawText_witness :
  exists chunked whole,
    run paragraph kind_of (map Live [chunk1; chunk2; chunk3]) [] = Normal [chunked]
    /\ run paragraph kind_of
         [Live (mkMessage "model" (concat (map parts [chunk1; chunk2; chunk3])))] []
       = Normal [whole]
    /\ dataset_role chunked = dataset_role whole
    /\ rawText_of chunked = rawText_of whole
    /\ rawText_of whole
       = Some (text_of_parts (concat (map parts [chunk1; chunk2; chunk3]))).
Proof.
  apply (merge_equivalence_rawText paragraph kind_of "model" [chunk1; chunk2; chunk3]).
  - discriminate.
  - discriminate.
  - repeat constructor.
  - repeat constructor.
Defined.

Lemma loadHistory_arrays_apart_witness :
  let history := [1%positive; 3%positive; 5%positive] in
  Forall2 (fun l m => Heap.read_message spec_history_heap l = Some m)
          history spec_history
  /\ exists h' merged arrays,
       Heap.reduce history (spec_history_heap, []) = Some (h', merged)
       /\ Forall2 (fun l pl => exists r, h' !! l = Some (Heap.MessageObject r pl))
                  merged arrays
       /\ NoDup arrays
       /\ Forall (fun pl => spec_history_heap !! pl = None) arrays.
Proof.
  assert (H : Forall2 (fun l m => Heap.read_message spec_history_heap l = Some m)
                      [1%positive; 3%positive; 5%positive] spec_history)
    by (repeat constructor).
  split; [exact H | exact (loadHistory_arrays_apart _ _ _ H)].
Defined.

Lemma loadHistory_answered_witness :
  Forall (fun m => showable m = true) spec_history
  /\ exists final,
       loadHistory paragraph kind_of type_error_text (Answered spec_history)
         [user_entry paragraph "old"]
       = Normal (final, [])
       /\ Forall2 shows final (mergedHistory spec_history).
Proof.
  assert (H : Forall (fun m => showable m = true) spec_history)
    by (repeat constructor).
  split; [exact H|].
  exact (loadHistory_answered paragraph kind_of type_error_text spec_history
           [user_entry paragraph "old"] H).
Defined.

Lemma loadHistory_stops_at_failure_witness :
  mergedHistory broken_history
  = [mkMessage "user" [text_part "hi"]] ++ call_without_args :: []
  /\ showable call_without_args = false
  /\ exists shown,
       loadHistory paragraph kind_of type_error_text (Answered broken_history) []
       = Normal (shown ++ [load_error_entry paragraph
                             (type_error_text call_without_args)],
                 [type_error_text call_without_args])
       /\ Forall2 shows shown [mkMessage "user" [text_part "hi"]].
Proof.
  split; [reflexivity|]. split; [reflexivity|].
  apply (loadHistory_stops_at_failure paragraph kind_of type_error_text
           broken_history [mkMessage "user" [text_part "hi"]] [] call_without_args []).
  - reflexivity.
  - repeat constructor.
  - reflexivity.
Defined.

Lemma handleFormSubmit_submits_witness :
  truthy (strip_spaces (chatInput_value typed_form)) = true
  /\ handleFormSubmit paragraph kind_of kind_of strip_spaces typed_form
     = Normal (mkForm
                 (mkPage [user_entry paragraph "hi"; user_entry paragraph "and you?"]
                         true true false [])
                 "" ["{...}"]).
Proof.
  split; [reflexivity|].
  exact (handleFormSubmit_submits paragraph kind_of kind_of strip_spaces typed_form
           eq_refl).
Defined.

Lemma handleFormSubmit_twice_witness :
  strip_spaces "" = ""
  /\ exists f',
       handleFormSubmit paragraph kind_of kind_of strip_spaces typed_form = Normal f'
       /\ handleFormSubmit paragraph kind_of kind_of strip_spaces f' = Normal f'.
Proof.
  split; [reflexivity|].
  exact (handleFormSubmit_twice paragraph kind_of kind_of strip_spaces typed_form
           eq_refl).
Defined.

